(** * Gym management: the event/ticket index of [gym_management.c]

    A shallow embedding of the binary search tree that indexes events and
    tickets by a composite string key, of the catalog operations built on
    it, and of the seat validator, followed by the properties checked
    against them. *)

From Stdlib Require Import ZArith String Ascii List Lia Bool Sorted.
From Stdlib Require Import OrdersEx DecimalString DecimalFacts DecimalPos.
From Stdlib Require Import DecimalZ.
From Stdlib Require Import RelationClasses.
From stdpp Require Import base option strings gmap.
Import ListNotations.

Local Open Scope string_scope.
Local Open Scope list_scope.
Local Open Scope Z_scope.

(** ** C strings and the libc functions the program calls *)

(** A C string is modelled by the characters in front of its terminator.
    [strcmp] compares them as unsigned bytes; C fixes only the sign of the
    result, and the program only looks at the sign. *)
Definition strcmp (s1 s2 : string) : Z :=
  match String_as_OT.compare s1 s2 with
  | Lt => -1
  | Eq => 0
  | Gt => 1
  end.

Definition strlen (s : string) : Z := Z.of_nat (String.length s).

Definition uchar (c : ascii) : Z := Z.of_N (N_of_ascii c).

(** [tolower], [isspace] and [isdigit] in the "C" locale. *)
Definition tolower (c : Z) : Z :=
  if (65 <=? c) && (c <=? 90) then c + 32 else c.

Definition isspace (c : Z) : bool :=
  (c =? 32) || ((9 <=? c) && (c <=? 13)).

Definition isdigit (c : Z) : bool :=
  (48 <=? c) && (c <=? 57).

Fixpoint skip_space (s : string) : string :=
  match s with
  | String c r => if isspace (uchar c) then skip_space r else s
  | EmptyString => EmptyString
  end.

Fixpoint digits_value (acc : Z) (s : string) : Z :=
  match s with
  | String c r =>
      if isdigit (uchar c) then digits_value (acc * 10 + (uchar c - 48)) r
      else acc
  | EmptyString => acc
  end.

(** [atoi]: leading white space, an optional sign, then the longest run of
    decimal digits; whatever follows is ignored and no digit gives 0. *)
Definition atoi (s : string) : Z :=
  match skip_space s with
  | String c r =>
      if uchar c =? 45 then - digits_value 0 r
      else if uchar c =? 43 then digits_value 0 r
      else digits_value 0 (String c r)
  | EmptyString => 0
  end.

(** The conversion [%d] of [printf] and [sprintf]. *)
Definition fmt_d (z : Z) : string := NilZero.string_of_int (Z.to_int z).

(** ** Data structures *)

Inductive NodeType : Set :=
| EVENT_NODE
| TICKET_NODE.

Record Event : Set := mkEvent {
  date : string;
  time : string;
  code : Z;
  title : string
}.

Record Ticket : Set := mkTicket {
  seat : string;
  afm : string;
  firstName : string;
  lastName : string;
  eventCode : Z
}.

(** The [type] tag of a node together with the live member of its [data]
    union.  The program writes both at once (in [createNode] and in the
    two-children case of [deleteNode]) and reads a member only under the
    matching tag. *)
Inductive NodeData : Set :=
| eventData (e : Event)
| ticketData (t : Ticket).

Definition type_of (d : NodeData) : NodeType :=
  match d with
  | eventData _ => EVENT_NODE
  | ticketData _ => TICKET_NODE
  end.

Definition NodeType_eqb (a b : NodeType) : bool :=
  match a, b with
  | EVENT_NODE, EVENT_NODE => true
  | TICKET_NODE, TICKET_NODE => true
  | _, _ => false
  end.

(** A [TreeNode *]: [NULL], or a node that owns its two subtrees. *)
Inductive TreeNode : Set :=
| NULL
| Node (key : string) (data : NodeData) (left right : TreeNode).

(** ** Tree management functions *)

Definition createNode (key : string) (data : NodeData) : TreeNode :=
  Node key data NULL NULL.

Fixpoint insertNode (root : TreeNode) (key : string) (data : NodeData)
  : TreeNode :=
  match root with
  | NULL => createNode key data
  | Node rkey rdata l r =>
      let cmp := strcmp key rkey in
      if cmp <? 0 then Node rkey rdata (insertNode l key data) r
      else if 0 <? cmp then Node rkey rdata l (insertNode r key data)
      else root
  end.

(** The result is the pointer the C function returns: the subtree rooted at
    the node found, [NULL] when there is none. *)
Fixpoint searchNode (root : TreeNode) (key : string) : TreeNode :=
  match root with
  | NULL => root
  | Node rkey _ l r =>
      if strcmp rkey key =? 0 then root
      else if strcmp key rkey <? 0 then searchNode l key
      else searchNode r key
  end.

Fixpoint findMin (node : TreeNode) : TreeNode :=
  match node with
  | NULL => node
  | Node _ _ l _ =>
      match l with
      | NULL => node
      | Node _ _ _ _ => findMin l
      end
  end.

Fixpoint deleteNode (root : TreeNode) (key : string) : TreeNode :=
  match root with
  | NULL => root
  | Node rkey rdata l r =>
      let cmp := strcmp key rkey in
      if cmp <? 0 then Node rkey rdata (deleteNode l key) r
      else if 0 <? cmp then Node rkey rdata l (deleteNode r key)
      else
        match l, r with
        | NULL, _ => r
        | _, NULL => l
        | _, _ =>
            match findMin r with
            | Node tkey tdata _ _ => Node tkey tdata l (deleteNode r tkey)
            | NULL => root
            end
        end
  end.

(** Text written by [printf], one entry per call. *)
Definition nl : string := String "010"%char EmptyString.

Definition rule : string := "----------------------------------------" +:+ nl.

Definition print_event (e : Event) : list string :=
  [ rule;
    "  Event Code: " +:+ fmt_d (code e) +:+ nl;
    "  Title: " +:+ title e +:+ nl;
    "  Date: " +:+ date e +:+ nl;
    "  Time: " +:+ time e +:+ nl;
    rule ].

Definition print_ticket (t : Ticket) : list string :=
  [ rule;
    "  Event (Code): " +:+ fmt_d (eventCode t) +:+ nl;
    "  Seat: " +:+ seat t +:+ nl;
    "  First Name: " +:+ firstName t +:+ nl;
    "  Last Name: " +:+ lastName t +:+ nl;
    "  Tax ID: " +:+ afm t +:+ nl;
    rule ].

(** What one node contributes to [inorderTraversalPrint]. *)
Definition print_node (data : NodeData) (filterType : NodeType)
  (eventCodeFilter : Z) : list string :=
  if NodeType_eqb (type_of data) filterType then
    match data with
    | eventData e => print_event e
    | ticketData t =>
        if (eventCodeFilter =? -1) || (eventCode t =? eventCodeFilter)
        then print_ticket t
        else []
    end
  else [].

Fixpoint inorderTraversalPrint (root : TreeNode) (filterType : NodeType)
  (eventCodeFilter : Z) : list string :=
  match root with
  | NULL => []
  | Node _ data l r =>
      inorderTraversalPrint l filterType eventCodeFilter
      ++ print_node data filterType eventCodeFilter
      ++ inorderTraversalPrint r filterType eventCodeFilter
  end.

(** The growable array of collected keys: [keys] holds the [count] entries
    written so far, [capacity] is the allocated size. *)
Record KeyBuffer : Set := mkKeyBuffer {
  keys : list string;
  count : Z;
  capacity : Z
}.

(** The test under which [collectTicketKeysForEvent] takes a node. *)
Definition ticket_of_event (evCode : Z) (data : NodeData) : bool :=
  match data with
  | ticketData t => eventCode t =? evCode
  | eventData _ => false
  end.

Definition push_key (key : string) (b : KeyBuffer) : KeyBuffer :=
  let cap := if capacity b <=? count b then capacity b * 2 else capacity b in
  {| keys := keys b ++ [key]; count := count b + 1; capacity := cap |}.

Fixpoint collectTicketKeysForEvent (root : TreeNode) (evCode : Z)
  (b : KeyBuffer) : KeyBuffer :=
  match root with
  | NULL => b
  | Node key data l r =>
      let b1 := collectTicketKeysForEvent l evCode b in
      let b2 := if ticket_of_event evCode data then push_key key b1 else b1 in
      collectTicketKeysForEvent r evCode b2
  end.

(** ** Console input and output *)

(** The characters still to be read from standard input, the chunks
    written to standard output, one per [printf], and the keys the event and
    ticket functions have passed to [searchNode], in call order.  The last
    field is not program state: it exists to say which searches a function
    made. *)
Record World : Set := mkWorld {
  stdin : string;
  stdout : list string;
  searched : list string
}.

Definition IO (A : Type) : Type := World -> A * World.

Definition ret {A : Type} (a : A) : IO A := fun w => (a, w).

Definition bind {A B : Type} (m : IO A) (k : A -> IO B) : IO B :=
  fun w => let (a, w') := m w in k a w'.

Definition printf (s : string) : IO unit :=
  fun w => (tt, {| stdin := stdin w; stdout := stdout w ++ [s];
                   searched := searched w |}).

Definition printfs (l : list string) : IO unit :=
  fun w => (tt, {| stdin := stdin w; stdout := stdout w ++ l;
                   searched := searched w |}).

Notation "'let*' x ':=' m 'in' k" := (bind m (fun x => k))
  (at level 10, x name, m at level 100, k at level 200).
Notation "'say' s 'in' k" := (bind (printf s) (fun _ => k))
  (at level 10, s at level 100, k at level 200).

Definition is_newline (c : ascii) : bool := uchar c =? 10.

(** At most [n] characters, stopping behind the first newline. *)
Fixpoint read_line (n : nat) (s : string) : string * string :=
  match n, s with
  | O, _ => (EmptyString, s)
  | S _, EmptyString => (EmptyString, EmptyString)
  | S n', String c r =>
      if is_newline c then (String c EmptyString, r)
      else let (line, rest) := read_line n' r in (String c line, rest)
  end.

(** [fgets(buffer, size, stdin)]: [None] is the [NULL] returned at end of
    input, when the buffer is left as it was. *)
Definition fgets (size : Z) : IO (option string) :=
  fun w =>
    match stdin w with
    | EmptyString => (None, w)
    | String _ _ =>
        let (line, rest) := read_line (Z.to_nat (size - 1)) (stdin w) in
        (Some line, {| stdin := rest; stdout := stdout w;
                       searched := searched w |})
    end.

(** [buffer[strcspn(buffer, "\n")] = 0]. *)
Fixpoint cut_newline (s : string) : string :=
  match s with
  | EmptyString => EmptyString
  | String c r => if is_newline c then EmptyString else String c (cut_newline r)
  end.

(** A call of [searchNode] on the whole tree made by an event or ticket
    function. *)
Definition search (root : TreeNode) (key : string) : IO TreeNode :=
  fun w => (searchNode root key,
            {| stdin := stdin w; stdout := stdout w;
               searched := searched w ++ [key] |}).

Definition is_null (t : TreeNode) : bool :=
  match t with
  | NULL => true
  | Node _ _ _ _ => false
  end.

(** [sprintf(key, "E_%d", code)] and [sprintf(key, "T_%d_%s", code, seat)]. *)
Definition event_key (c : Z) : string := "E_" +:+ fmt_d c.

Definition ticket_key (c : Z) (s : string) : string :=
  "T_" +:+ fmt_d c +:+ "_" +:+ s.

(** The loop [for (i = 0; i < count; i++) root = deleteNode(root, keys[i])]. *)
Definition delete_keys (root : TreeNode) (b : KeyBuffer) : TreeNode :=
  fold_left deleteNode (firstn (Z.to_nat (count b)) (keys b)) root.

(** [validateSeat] returns 1 for a seat it accepts and 0 otherwise. *)
Definition validateSeat (s : string) : Z :=
  if (strlen s <? 2) || (4 <? strlen s) then 0
  else
    let section := tolower (match s with
                            | String c _ => uchar c
                            | EmptyString => 0
                            end) in
    if (section <? 97) || (104 <? section) then 0
    else
      let number := atoi (match s with
                          | String _ r => r
                          | EmptyString => EmptyString
                          end) in
      if (number <? 1) || (500 <? number) then 0
      else 1.

(** ** Event and ticket management functions

    [sscanf_d] stands for [sscanf(buffer, "%d", &value)]: the [int] stored
    when one item was converted, [None] otherwise.  Memory allocation is
    taken to succeed: [createNode] ends the program when it does not. *)
Section Catalog.

Variable sscanf_d : string -> option Z.

Definition getIntegerInput : IO Z :=
  let* got := fgets 100 in
  match got with
  | Some buffer =>
      match sscanf_d buffer with
      | Some value => ret value
      | None => ret (-1)
      end
  | None => ret (-1)
  end.

Definition getStringInput (buffer : string) (size : Z) : IO string :=
  let* got := fgets size in
  match got with
  | Some line => ret (cut_newline line)
  | None => ret buffer
  end.

(** [newEvent] is the content of the local variable on entry, which stays
    in a field whose read meets the end of input. *)
Definition addEvent (newEvent : Event) (root : TreeNode) : IO TreeNode :=
  say nl +:+ "--- Add New Event ---" +:+ nl in
  say "Enter event code (integer): " in
  let* c := getIntegerInput in
  if c <? 0 then
    say "(!) Invalid code." +:+ nl in
    ret root
  else
    let key := event_key c in
    let* hit := search root key in
    if negb (is_null hit) then
      say "(!) Error: An event with this code already exists." +:+ nl in
      ret root
    else
      say "Enter event title: " in
      let* t := getStringInput (title newEvent) 100 in
      say "Enter date (DD/MM/YYYY): " in
      let* d := getStringInput (date newEvent) 11 in
      say "Enter time (HH:MM): " in
      let* h := getStringInput (time newEvent) 6 in
      let e := {| date := d; time := h; code := c; title := t |} in
      let root' := insertNode root key (eventData e) in
      say "-> Event '" +:+ t +:+ "' added successfully." +:+ nl in
      ret root'.

Definition findEvent (root : TreeNode) : IO unit :=
  say nl +:+ "--- Search for Event ---" +:+ nl in
  say "Enter event code to search for: " in
  let* c := getIntegerInput in
  if c <? 0 then
    say "(!) Invalid code." +:+ nl in
    ret tt
  else
    let key := event_key c in
    let* result := search root key in
    if negb (is_null result) then
      say "-> Event found:" +:+ nl in
      printfs (inorderTraversalPrint result EVENT_NODE (-1))
    else
      say "(!) No event found with code " +:+ fmt_d c +:+ "." +:+ nl in
      ret tt.

Definition removeEvent (root : TreeNode) : IO TreeNode :=
  say nl +:+ "--- Delete Event ---" +:+ nl in
  say "Enter event code to delete: " in
  let* c := getIntegerInput in
  if c <? 0 then
    say "(!) Invalid code." +:+ nl in
    ret root
  else
    let eventKey := event_key c in
    let* hit := search root eventKey in
    if is_null hit then
      say "(!) No event found with code " +:+ fmt_d c +:+ "." +:+ nl in
      ret root
    else
      let b := collectTicketKeysForEvent root c
                 {| keys := []; count := 0; capacity := 10 |} in
      say "-> Deleting " +:+ fmt_d (count b)
          +:+ " tickets associated with the event..." +:+ nl in
      let root1 := delete_keys root b in
      let root2 := deleteNode root1 eventKey in
      say "-> Event with code " +:+ fmt_d c
          +:+ " and all its tickets have been deleted." +:+ nl in
      ret root2.

Definition printEvents (root : TreeNode) : IO unit :=
  say nl +:+ "--- LIST OF ALL EVENTS ---" +:+ nl in
  let* _ := printfs (inorderTraversalPrint root EVENT_NODE (-1)) in
  say "--- END OF LIST ---" +:+ nl in
  ret tt.

(** [newTicket] is the content of the local variable on entry. *)
Definition addTicket (newTicket : Ticket) (root : TreeNode) : IO TreeNode :=
  say nl +:+ "--- Issue Ticket ---" +:+ nl in
  say "Enter event code: " in
  let* c := getIntegerInput in
  if c <? 0 then
    say "(!) Invalid code." +:+ nl in
    ret root
  else
    let eventKey := event_key c in
    let* hit := search root eventKey in
    if is_null hit then
      say "(!) Error: No event exists with code " +:+ fmt_d c +:+ "." +:+ nl in
      ret root
    else
      say "Enter seat (e.g., c149): " in
      let* s := getStringInput (seat newTicket) 5 in
      if validateSeat s =? 0 then
        say "(!) Error: Invalid seat. Section 'a'-'h' and number 1-500." +:+ nl in
        ret root
      else
        let key := ticket_key c s in
        let* booked := search root key in
        if negb (is_null booked) then
          say "(!) Error: Seat " +:+ s
              +:+ " is already booked for this event." +:+ nl in
          ret root
        else
          say "Enter spectator's Tax ID: " in
          let* a := getStringInput (afm newTicket) 11 in
          say "Enter spectator's first name: " in
          let* f := getStringInput (firstName newTicket) 50 in
          say "Enter spectator's last name: " in
          let* l := getStringInput (lastName newTicket) 50 in
          let t := {| seat := s; afm := a; firstName := f; lastName := l;
                      eventCode := c |} in
          let root' := insertNode root key (ticketData t) in
          say "-> Ticket for seat " +:+ s +:+ " issued successfully." +:+ nl in
          ret root'.

(** [seat0] is the content of the local buffer on entry. *)
Definition findTicket (seat0 : string) (root : TreeNode) : IO unit :=
  say nl +:+ "--- Search for Ticket ---" +:+ nl in
  say "Enter event code: " in
  let* c := getIntegerInput in
  if c <? 0 then
    say "(!) Invalid code." +:+ nl in
    ret tt
  else
    say "Enter seat number (e.g., c149): " in
    let* s := getStringInput seat0 5 in
    let key := ticket_key c s in
    let* result := search root key in
    if negb (is_null result) then
      say "-> Ticket found:" +:+ nl in
      printfs (inorderTraversalPrint result TICKET_NODE c)
    else
      say "(!) No booking found for seat " +:+ s +:+ " in event "
          +:+ fmt_d c +:+ "." +:+ nl in
      ret tt.

Definition printTicketsForEvent (root : TreeNode) : IO unit :=
  say nl +:+ "--- Print Tickets for an Event ---" +:+ nl in
  say "Enter event code: " in
  let* c := getIntegerInput in
  if c <? 0 then
    say "(!) Invalid code." +:+ nl in
    ret tt
  else
    let eventKey := event_key c in
    let* hit := search root eventKey in
    if is_null hit then
      say "(!) Error: No event exists with code " +:+ fmt_d c +:+ "." +:+ nl in
      ret tt
    else
      say nl +:+ "--- LIST OF TICKETS FOR EVENT " +:+ fmt_d c +:+ " ---" +:+ nl in
      let* _ := printfs (inorderTraversalPrint root TICKET_NODE c) in
      say "--- END OF LIST ---" +:+ nl in
      ret tt.

(** What the local variables [newEvent], [newTicket] and [seat] hold when
    the functions are entered: C leaves it open, and the functions use it
    only for a field whose read meets the end of input. *)
Variable local_event : Event.
Variable local_ticket : Ticket.
Variable local_seat : string.

(** The menus loop until their last entry is chosen.  [fuel] bounds the
    turns of all the loops together; the flag of the result says whether the
    loop came to its end, and the tree is the one reached in either case. *)
Fixpoint eventMenu (fuel : nat) (root : TreeNode) : IO (bool * TreeNode) :=
  match fuel with
  | O => ret (false, root)
  | S fuel' =>
      say nl +:+ "--- Event Management Menu ---" +:+ nl in
      say "1. Add Event" +:+ nl in
      say "2. Search for Event (by Code)" +:+ nl in
      say "3. Delete Event (by Code)" +:+ nl in
      say "4. Print List of Events" +:+ nl in
      say "5. Return to Main Menu" +:+ nl in
      say "Select [1-5]: " in
      let* choice := getIntegerInput in
      if choice =? 1 then
        let* root' := addEvent local_event root in eventMenu fuel' root'
      else if choice =? 2 then
        let* _ := findEvent root in eventMenu fuel' root
      else if choice =? 3 then
        let* root' := removeEvent root in eventMenu fuel' root'
      else if choice =? 4 then
        let* _ := printEvents root in eventMenu fuel' root
      else if choice =? 5 then
        ret (true, root)
      else
        say "(!) Invalid choice." +:+ nl in
        eventMenu fuel' root
  end.

Fixpoint ticketMenu (fuel : nat) (root : TreeNode) : IO (bool * TreeNode) :=
  match fuel with
  | O => ret (false, root)
  | S fuel' =>
      say nl +:+ "--- Ticket Management Menu ---" +:+ nl in
      say "1. Issue Ticket" +:+ nl in
      say "2. Search for Ticket (by Seat & Event Code)" +:+ nl in
      say "3. Print List of Tickets for an Event" +:+ nl in
      say "4. Return to Main Menu" +:+ nl in
      say "Select [1-4]: " in
      let* choice := getIntegerInput in
      if choice =? 1 then
        let* root' := addTicket local_ticket root in ticketMenu fuel' root'
      else if choice =? 2 then
        let* _ := findTicket local_seat root in ticketMenu fuel' root
      else if choice =? 3 then
        let* _ := printTicketsForEvent root in ticketMenu fuel' root
      else if choice =? 4 then
        ret (true, root)
      else
        say "(!) Invalid choice." +:+ nl in
        ticketMenu fuel' root
  end.

(** The loop of [main].  Choice 3 frees every node and sets the root to
    [NULL]. *)
Fixpoint main_loop (fuel : nat) (root : TreeNode) : IO (bool * TreeNode) :=
  match fuel with
  | O => ret (false, root)
  | S fuel' =>
      say nl +:+ "--- GYM MANAGEMENT MAIN MENU ---" +:+ nl in
      say "1. Manage Events" +:+ nl in
      say "2. Manage Tickets" +:+ nl in
      say "3. Exit and Delete All Data" +:+ nl in
      say "Select [1-3]: " in
      let* choice := getIntegerInput in
      if choice =? 1 then
        let* r := eventMenu fuel' root in
        if fst r then main_loop fuel' (snd r) else ret r
      else if choice =? 2 then
        let* r := ticketMenu fuel' root in
        if fst r then main_loop fuel' (snd r) else ret r
      else if choice =? 3 then
        say "Deleting all data and terminating the program..." +:+ nl in
        ret (true, NULL)
      else
        say "(!) Invalid choice. Please try again." +:+ nl in
        main_loop fuel' root
  end.

Definition main (fuel : nat) : IO (bool * TreeNode) :=
  let* r := main_loop fuel NULL in
  if fst r then
    say "Program terminated successfully." +:+ nl in
    ret r
  else ret r.

End Catalog.

(** ** The order on keys *)

Definition key_lt (a b : string) : Prop := strcmp a b < 0.

Inductive strcmp_spec (a b : string) : Z -> Prop :=
| strcmp_is_lt : key_lt a b -> strcmp_spec a b (-1)
| strcmp_is_eq : a = b -> strcmp_spec a b 0
| strcmp_is_gt : key_lt b a -> strcmp_spec a b 1.

(** ** The search-tree invariant *)

(** The records of a tree in left, self, right order. *)
Fixpoint inorder (t : TreeNode) : list (string * NodeData) :=
  match t with
  | NULL => []
  | Node k d l r => inorder l ++ (k, d) :: inorder r
  end.

Definition tree_keys (t : TreeNode) : list string := map fst (inorder t).

Fixpoint all_keys (P : string -> Prop) (t : TreeNode) : Prop :=
  match t with
  | NULL => True
  | Node k _ l r => P k /\ all_keys P l /\ all_keys P r
  end.

(** Every key of the left subtree is below the key of the node and every
    key of the right subtree above it, at every node. *)
Fixpoint BST (t : TreeNode) : Prop :=
  match t with
  | NULL => True
  | Node k _ l r =>
      all_keys (fun x => key_lt x k) l /\ all_keys (fun x => key_lt k x) r
      /\ BST l /\ BST r
  end.

(** The record in the node a search returned. *)
Definition found (t : TreeNode) : option (string * NodeData) :=
  match t with
  | NULL => None
  | Node k d _ _ => Some (k, d)
  end.

Definition has_key (k : string) (p : string * NodeData) : bool :=
  (fst p =? k)%string.

(** ** Sequences of index operations *)

Inductive index_op : Set :=
| Insert (key : string) (data : NodeData)
| Delete (key : string).

Definition apply_op (t : TreeNode) (o : index_op) : TreeNode :=
  match o with
  | Insert k d => insertNode t k d
  | Delete k => deleteNode t k
  end.

Definition apply_ops (ops : list index_op) (t : TreeNode) : TreeNode :=
  fold_left apply_op ops t.

(** The subtree [s] put where the search for [k] ends in [t]. *)
Fixpoint graft (t : TreeNode) (k : string) (s : TreeNode) : TreeNode :=
  match t with
  | NULL => s
  | Node rk rd l r =>
      if strcmp k rk <? 0 then Node rk rd (graft l k s) r
      else if 0 <? strcmp k rk then Node rk rd l (graft r k s)
      else s
  end.


(** The keys an in-order traversal meets on tickets of event [c]. *)
Definition ticket_keys_of (t : TreeNode) (c : Z) : list string :=
  map fst (List.filter (fun p => ticket_of_event c (snd p)) (inorder t)).

(** The buffer [removeEvent] starts the collection with. *)
Definition empty_buffer : KeyBuffer :=
  {| keys := []; count := 0; capacity := 10 |}.

(** ** Keys and the codes they are built from *)

Definition built_from (c : Z) (k : string) : Prop :=
  k = event_key c \/ exists s, k = ticket_key c s.

(** A key built from a code that is not negative. *)
Definition clean (k : string) : Prop :=
  exists c, 0 <= c /\ built_from c k.

(** What a function establishes for its result while every key it passes
    to [searchNode] stays clean. *)
Definition keeps_clean {A : Type} (m : IO A) (Q : A -> Prop) : Prop :=
  forall w, Forall clean (searched w) ->
            Q (fst (m w)) /\ Forall clean (searched (snd (m w))).

(** ** The seat format of the specification *)

Fixpoint all_digits (s : string) : bool :=
  match s with
  | EmptyString => true
  | String c r => isdigit (uchar c) && all_digits r
  end.

(** The seat format as the specification words it: two to four characters,
    a section letter from a to h in either case, and a remainder that is a
    decimal number from 1 to 500. *)
Definition seat_format_spec (s : string) : bool :=
  match s with
  | EmptyString => false
  | String c r =>
      (2 <=? strlen s) && (strlen s <=? 4)
      && (97 <=? tolower (uchar c)) && (tolower (uchar c) <=? 104)
      && negb (strlen r =? 0) && all_digits r
      && (1 <=? digits_value 0 r) && (digits_value 0 r <=? 500)
  end.

(** ** Sample inputs *)

(** An instance of [sscanf_d] for lines whose number fits an [int]: white
    space, an optional sign, at least one digit; the rest of the line is
    left alone. *)
Definition scan_decimal (s : string) : option Z :=
  let starts_with_digit r :=
    match r with
    | String c _ => isdigit (uchar c)
    | EmptyString => false
    end in
  match skip_space s with
  | String c r =>
      if uchar c =? 45 then
        if starts_with_digit r then Some (- digits_value 0 r) else None
      else if uchar c =? 43 then
        if starts_with_digit r then Some (digits_value 0 r) else None
      else if isdigit (uchar c) then Some (digits_value 0 (String c r))
      else None
  | EmptyString => None
  end.

Definition console (input : string) : World :=
  {| stdin := input; stdout := []; searched := [] |}.

Definition yoga : Event :=
  {| date := "01/01/2025"; time := "10:00"; code := 101; title := "Yoga" |}.

Definition pilates : Event :=
  {| date := "02/01/2025"; time := "18:30"; code := 102; title := "Pilates" |}.

Definition seat_c149 : Ticket :=
  {| seat := "c149"; afm := "123456789"; firstName := "Ann";
     lastName := "Lee"; eventCode := 101 |}.

Definition seat_a7 : Ticket :=
  {| seat := "a7"; afm := "987654321"; firstName := "Bo";
     lastName := "Ray"; eventCode := 101 |}.

Definition seat_b2 : Ticket :=
  {| seat := "b2"; afm := "555555555"; firstName := "Cy";
     lastName := "Poe"; eventCode := 102 |}.

Definition seat_h500 : Ticket :=
  {| seat := "h500"; afm := "111222333"; firstName := "Di";
     lastName := "Wu"; eventCode := 102 |}.

(** Two events and three tickets, entered through the index. *)
Definition sample_tree : TreeNode :=
  apply_ops [ Insert "E_101" (eventData yoga);
              Insert "T_101_c149" (ticketData seat_c149);
              Insert "E_102" (eventData pilates);
              Insert "T_101_a7" (ticketData seat_a7);
              Insert "T_102_b2" (ticketData seat_b2) ] NULL.

(** ** The tree in memory

    The functions that only read the tree, over nodes that live at
    addresses and point to their children.  A function takes the memory and
    gives it back with its result, so that what it leaves in memory can be
    compared with what it found. *)
Module Heap.

Definition loc : Set := positive.

(** A [TreeNode *]: [None] is the null pointer. *)
Definition ptr : Set := option loc.

(** A [struct TreeNode]. *)
Record Cell : Set := mkCell {
  key : string;
  data : NodeData;
  left : ptr;
  right : ptr
}.

Definition heap : Type := gmap loc Cell.

(** [None] is a run that is cut short: the fuel that bounds the recursion is
    used up, or a pointer to no node is followed. *)
Definition Mem (A : Type) : Type := heap -> option (A * heap).

Definition ret {A : Type} (a : A) : Mem A := fun h => Some (a, h).

Definition stop {A : Type} : Mem A := fun _ => None.

Definition bind {A B : Type} (m : Mem A) (k : A -> Mem B) : Mem B :=
  fun h =>
    match m h with
    | Some (a, h') => k a h'
    | None => None
    end.

Notation "'let+' x ':=' m 'in' k" := (bind m (fun x => k))
  (at level 10, x name, m at level 100, k at level 200).

(** Reading the node a pointer refers to. *)
Definition load (p : loc) : Mem Cell :=
  fun h =>
    match h !! p with
    | Some c => Some (c, h)
    | None => None
    end.

Fixpoint searchNode (fuel : nat) (root : ptr) (k : string) : Mem ptr :=
  match fuel with
  | O => stop
  | S fuel' =>
      match root with
      | None => ret root
      | Some p =>
          let+ c := load p in
          if strcmp (key c) k =? 0 then ret root
          else if strcmp k (key c) <? 0 then searchNode fuel' (left c) k
          else searchNode fuel' (right c) k
      end
  end.

(** One turn of the loop per unit of fuel. *)
Fixpoint findMin (fuel : nat) (node : ptr) : Mem ptr :=
  match fuel with
  | O => stop
  | S fuel' =>
      match node with
      | None => ret node
      | Some p =>
          let+ c := load p in
          match left c with
          | None => ret node
          | Some _ => findMin fuel' (left c)
          end
      end
  end.

(** The result is the text printed. *)
Fixpoint inorderTraversalPrint (fuel : nat) (root : ptr)
  (filterType : NodeType) (eventCodeFilter : Z) : Mem (list string) :=
  match fuel with
  | O => stop
  | S fuel' =>
      match root with
      | None => ret []
      | Some p =>
          let+ c := load p in
          let+ before :=
            inorderTraversalPrint fuel' (left c) filterType eventCodeFilter in
          let+ c' := load p in
          let here := print_node (data c') filterType eventCodeFilter in
          let+ after :=
            inorderTraversalPrint fuel' (right c') filterType eventCodeFilter in
          ret (before ++ here ++ after)
      end
  end.

Fixpoint collectTicketKeysForEvent (fuel : nat) (root : ptr) (evCode : Z)
  (b : KeyBuffer) : Mem KeyBuffer :=
  match fuel with
  | O => stop
  | S fuel' =>
      match root with
      | None => ret b
      | Some p =>
          let+ c := load p in
          let+ b1 := collectTicketKeysForEvent fuel' (left c) evCode b in
          let+ c' := load p in
          let b2 := if ticket_of_event evCode (data c')
                    then push_key (key c') b1 else b1 in
          collectTicketKeysForEvent fuel' (right c') evCode b2
      end
  end.

(** The nodes reachable from a pointer form the tree [t]. *)
Inductive tree_at (h : heap) : ptr -> TreeNode -> Prop :=
| at_null : tree_at h None NULL
| at_node (p : loc) (c : Cell) (l r : TreeNode) :
    h !! p = Some c ->
    tree_at h (left c) l ->
    tree_at h (right c) r ->
    tree_at h (Some p) (Node (key c) (data c) l r).

(** [free(p)]: the node must be allocated, and is gone afterwards. *)
Definition free (p : loc) : Mem unit :=
  fun h =>
    match h !! p with
    | Some _ => Some (tt, delete p h)
    | None => None
    end.

(** [root->left] and [root->right] are read from the node when they are
    needed, the second after the left subtree has been freed. *)
Fixpoint freeTree (fuel : nat) (root : ptr) : Mem unit :=
  match fuel with
  | O => stop
  | S fuel' =>
      match root with
      | None => ret tt
      | Some p =>
          let+ c := load p in
          let+ _ := freeTree fuel' (left c) in
          let+ c' := load p in
          let+ _ := freeTree fuel' (right c') in
          free p
      end
  end.

(** The nodes reachable from a pointer form the tree [t], each node of [t]
    at an address of its own: [cells] is the set of these addresses. *)
Inductive owns (h : heap) : ptr -> TreeNode -> gset loc -> Prop :=
| owns_null : owns h None NULL ∅
| owns_node (p : loc) (c : Cell) (l r : TreeNode) (cl cr : gset loc) :
    h !! p = Some c ->
    owns h (left c) l cl ->
    owns h (right c) r cr ->
    p ∉ cl -> p ∉ cr -> cl ## cr ->
    owns h (Some p) (Node (key c) (data c) l r) ({[p]} ∪ cl ∪ cr).

End Heap.

Fixpoint height (t : TreeNode) : nat :=
  match t with
  | NULL => O
  | Node _ _ l r => S (Nat.max (height l) (height r))
  end.

(** An event node at address 1 whose right child, a ticket node, is at
    address 2. *)
Definition sample_heap : Heap.heap :=
  <[ 1%positive := Heap.mkCell "E_101" (eventData yoga) None (Some 2%positive) ]>
    (<[ 2%positive := Heap.mkCell "T_101_c149" (ticketData seat_c149) None None ]>
       ∅).

Definition sample_heap_tree : TreeNode :=
  Node "E_101" (eventData yoga) NULL
    (Node "T_101_c149" (ticketData seat_c149) NULL NULL).

(** ** What the tree holds while the program runs *)

(** The key a record is stored under follows from its payload: an event
    under the key of its code, a ticket under the key of its event code and
    seat, the seat being one the validator accepts. *)
Definition key_matches (k : string) (d : NodeData) : Prop :=
  match d with
  | eventData e => 0 <= code e /\ k = event_key (code e)
  | ticketData t =>
      0 <= eventCode t /\ validateSeat (seat t) = 1
      /\ k = ticket_key (eventCode t) (seat t)
  end.

Definition wellkeyed (t : TreeNode) : Prop :=
  forall k d, In (k, d) (inorder t) -> key_matches k d.

(** Every ticket belongs to an event of the tree. *)
Definition orphan_free (t : TreeNode) : Prop :=
  forall k tk, In (k, ticketData tk) (inorder t) ->
               In (event_key (eventCode tk)) (tree_keys t).

(** The ways in which a call of an event or ticket function can change the
    tree. *)
Inductive transition (t : TreeNode) : TreeNode -> Prop :=
| same_tree : transition t t
| event_added (e : Event) :
    0 <= code e ->
    searchNode t (event_key (code e)) = NULL ->
    transition t (insertNode t (event_key (code e)) (eventData e))
| ticket_added (tk : Ticket) :
    0 <= eventCode tk ->
    searchNode t (event_key (eventCode tk)) <> NULL ->
    validateSeat (seat tk) = 1 ->
    searchNode t (ticket_key (eventCode tk) (seat tk)) = NULL ->
    transition t
      (insertNode t (ticket_key (eventCode tk) (seat tk)) (ticketData tk))
| event_removed (c : Z) :
    0 <= c ->
    searchNode t (event_key c) <> NULL ->
    transition t
      (deleteNode (fold_left deleteNode (ticket_keys_of t c) t)
         (event_key c)).

(** What a function establishes for its result, whatever the input. *)
Definition post {A : Type} (m : IO A) (Q : A -> Prop) : Prop :=
  forall w, Q (fst (m w)).

(** The records an in-order enumeration prints for a filter. *)
Definition listed (filterType : NodeType) (eventCodeFilter : Z)
  (p : string * NodeData) : bool :=
  match snd p, filterType with
  | eventData _, EVENT_NODE => true
  | ticketData t, TICKET_NODE =>
      (eventCodeFilter =? -1) || (eventCode t =? eventCodeFilter)
  | _, _ => false
  end.

Definition print_record (p : string * NodeData) : list string :=
  match snd p with
  | eventData e => print_event e
  | ticketData t => print_ticket t
  end.

Definition has_newline (s : string) : bool :=
  existsb is_newline (list_ascii_of_string s).

Fixpoint no_underscore (s : string) : bool :=
  match s with
  | EmptyString => true
  | String c r => negb (uchar c =? 95) && no_underscore r
  end.

(** The trees the program can hold: the empty one, and what a call makes
    of one of them. *)
Inductive reachable : TreeNode -> Prop :=
| reachable_empty : reachable NULL
| reachable_step (t t' : TreeNode) :
    reachable t -> transition t t' -> reachable t'.

(** ** More sample inputs *)

(** Three records, the root between the other two. *)
Definition small_tree : TreeNode :=
  apply_ops [ Insert "E_102" (eventData pilates);
              Insert "E_101" (eventData yoga);
              Insert "T_102_b2" (ticketData seat_b2) ] NULL.

(** The addresses of the nodes of [sample_heap_tree] in [sample_heap]. *)
Definition sample_cells : gset Heap.loc :=
  {[ 1%positive ]} ∪ ∅ ∪ ({[ 2%positive ]} ∪ ∅ ∪ ∅).

Definition lines (l : list string) : string :=
  fold_right (fun line rest => line +:+ nl +:+ rest) EmptyString l.

(** * Properties of the index *)

(** ** The order on keys *)

Lemma ot_lt_irrefl (a : string) : ~ String_as_OT.lt a a.
Proof. exact (@StrictOrder_Irreflexive _ _ String_as_OT.lt_strorder a). Qed.

Lemma ot_lt_trans (a b c : string) :
  String_as_OT.lt a b -> String_as_OT.lt b c -> String_as_OT.lt a c.
Proof. exact (@StrictOrder_Transitive _ _ String_as_OT.lt_strorder a b c). Qed.

Lemma compare_flip (a b : string) :
  String_as_OT.compare b a = CompOpp (String_as_OT.compare a b).
Proof.
  destruct (String_as_OT.compare_spec a b) as [E | L | G];
    destruct (String_as_OT.compare_spec b a) as [E' | L' | G'];
    simpl; try reflexivity; unfold String_as_OT.eq in *; subst; exfalso;
    first [ eapply ot_lt_irrefl; eassumption
          | eapply ot_lt_irrefl; eapply ot_lt_trans; eassumption ].
Qed.

Lemma strcmp_sym (a b : string) : strcmp b a = - strcmp a b.
Proof.
  unfold strcmp. rewrite compare_flip.
  destruct (String_as_OT.compare a b); reflexivity.
Qed.

Lemma key_lt_compare (a b : string) :
  key_lt a b <-> String_as_OT.compare a b = Lt.
Proof.
  unfold key_lt, strcmp.
  destruct (String_as_OT.compare a b); split; intros H; try lia; try discriminate; reflexivity.
Qed.

Lemma strcmp_specP (a b : string) : strcmp_spec a b (strcmp a b).
Proof.
  unfold strcmp.
  destruct (String_as_OT.compare_spec a b) as [E | L | G]; constructor.
  - exact E.
  - apply key_lt_compare. exact L.
  - apply key_lt_compare. exact G.
Qed.

Lemma key_lt_irrefl (a : string) : ~ key_lt a a.
Proof.
  rewrite key_lt_compare. intros H.
  exact (ot_lt_irrefl _ H).
Qed.

Lemma key_lt_trans (a b c : string) : key_lt a b -> key_lt b c -> key_lt a c.
Proof.
  rewrite !key_lt_compare. intros H1 H2.
  exact (ot_lt_trans _ _ _ H1 H2).
Qed.

Lemma key_lt_asym (a b : string) : key_lt a b -> ~ key_lt b a.
Proof.
  intros H1 H2. exact (key_lt_irrefl a (key_lt_trans _ _ _ H1 H2)).
Qed.

Lemma key_lt_neq (a b : string) : key_lt a b -> a <> b.
Proof. intros H E. subst. exact (key_lt_irrefl b H). Qed.

Lemma strcmp_refl (a : string) : strcmp a a = 0.
Proof.
  destruct (strcmp_specP a a) as [L | E | G]; try reflexivity;
    exfalso; eapply key_lt_irrefl; eassumption.
Qed.

Lemma strcmp_lt (a b : string) : key_lt a b -> strcmp a b = -1.
Proof.
  intros H. destruct (strcmp_specP a b) as [L | E | G]; try reflexivity; exfalso.
  - subst. exact (key_lt_irrefl b H).
  - exact (key_lt_asym _ _ H G).
Qed.

Lemma strcmp_gt (a b : string) : key_lt b a -> strcmp a b = 1.
Proof.
  intros H. rewrite strcmp_sym, (strcmp_lt b a H). reflexivity.
Qed.

Lemma strcmp_eq_0 (a b : string) : strcmp a b = 0 <-> a = b.
Proof.
  split.
  - intros H. destruct (strcmp_specP a b) as [L | E | G];
      try discriminate; exact E.
  - intros ->. apply strcmp_refl.
Qed.

(** Rewrites every test the tree functions make on a pair of keys whose
    order is known. *)
Ltac order_keys a b :=
  let L := fresh "Hlt" in
  let E := fresh "Heq" in
  let G := fresh "Hgt" in
  destruct (strcmp_specP a b) as [L | E | G];
  [ rewrite ?(strcmp_lt a b L), ?(strcmp_gt b a L)
  | subst; rewrite ?strcmp_refl
  | rewrite ?(strcmp_gt a b G), ?(strcmp_lt b a G) ];
  cbn [Z.ltb Z.eqb Z.compare].

Lemma all_keys_Forall (P : string -> Prop) (t : TreeNode) :
  all_keys P t <-> Forall P (tree_keys t).
Proof.
  unfold tree_keys. induction t as [| k d l IHl r IHr]; simpl.
  - split; auto.
  - rewrite map_app, Forall_app. simpl. rewrite Forall_cons_iff, IHl, IHr.
    tauto.
Qed.

Lemma all_keys_impl (P Q : string -> Prop) (t : TreeNode) :
  (forall k, P k -> Q k) -> all_keys P t -> all_keys Q t.
Proof.
  intros HPQ. induction t as [| k d l IHl r IHr]; simpl; [auto |].
  intros (Hk & Hl & Hr). auto.
Qed.

Lemma StronglySorted_app_iff {A : Type} (R : A -> A -> Prop) (l1 l2 : list A) :
  StronglySorted R (l1 ++ l2) <->
  StronglySorted R l1 /\ StronglySorted R l2
  /\ Forall (fun x => Forall (R x) l2) l1.
Proof.
  induction l1 as [| a l1 IH]; simpl.
  - split.
    + intros H. repeat split; [constructor | exact H | constructor].
    + intros (_ & H & _). exact H.
  - split.
    + intros H. apply StronglySorted_inv in H. destruct H as [Hs Hf].
      apply IH in Hs. destruct Hs as (H1 & H2 & H12).
      apply Forall_app in Hf. destruct Hf as [Hf1 Hf2].
      repeat split; [constructor; assumption | assumption |].
      constructor; assumption.
    + intros (H1 & H2 & H12).
      apply StronglySorted_inv in H1. destruct H1 as [Hs Hf].
      apply Forall_cons_iff in H12. destruct H12 as [Ha H12].
      constructor.
      * apply IH. auto.
      * apply Forall_app. auto.
Qed.

(** The invariant says that the keys come out of an in-order traversal in
    strictly ascending order. *)
Lemma BST_sorted (t : TreeNode) :
  BST t <-> StronglySorted key_lt (tree_keys t).
Proof.
  unfold tree_keys. induction t as [| k d l IHl r IHr]; simpl.
  - split; [constructor | auto].
  - rewrite map_app. simpl. rewrite StronglySorted_app_iff.
    rewrite !all_keys_Forall, IHl, IHr. unfold tree_keys. split.
    + intros (Hl & Hr & Sl & Sr). repeat split; [assumption | |].
      * constructor; assumption.
      * eapply List.Forall_impl; [| exact Hl]. intros a Ha. simpl in Ha.
        constructor; [exact Ha |].
        eapply List.Forall_impl; [| exact Hr]. intros b Hb. simpl in Hb.
        eapply key_lt_trans; eassumption.
    + intros (Sl & Srk & Hall).
      apply StronglySorted_inv in Srk. destruct Srk as [Sr Hr].
      repeat split; try assumption.
      eapply List.Forall_impl; [| exact Hall]. intros a Ha. simpl in Ha.
      apply Forall_cons_iff in Ha. tauto.
Qed.

(** ** Insertion and search follow the same path *)

Lemma searchNode_key (t : TreeNode) (k k' : string) (d : NodeData) :
  found (searchNode t k) = Some (k', d) -> k' = k.
Proof.
  induction t as [| rk rd l IHl r IHr]; simpl; [discriminate |].
  order_keys k rk; auto.
  simpl. intros H. injection H as -> _. reflexivity.
Qed.

Lemma searchNode_insert_fresh (t : TreeNode) (k : string) (d : NodeData) :
  searchNode t k = NULL ->
  searchNode (insertNode t k d) k = createNode k d.
Proof.
  induction t as [| rk rd l IHl r IHr]; simpl.
  - intros _. rewrite strcmp_refl. reflexivity.
  - order_keys k rk; simpl.
    + rewrite (strcmp_lt k rk Hlt), (strcmp_gt rk k Hlt). simpl. exact IHl.
    + discriminate.
    + rewrite (strcmp_gt k rk Hgt), (strcmp_lt rk k Hgt). simpl. exact IHr.
Qed.

Lemma insertNode_present (t : TreeNode) (k : string) (d : NodeData) :
  searchNode t k <> NULL -> insertNode t k d = t.
Proof.
  induction t as [| rk rd l IHl r IHr]; simpl.
  - intros H. contradiction.
  - order_keys k rk; intros H.
    + rewrite IHl by exact H. reflexivity.
    + reflexivity.
    + rewrite IHr by exact H. reflexivity.
Qed.

Lemma searchNode_insert_same (t : TreeNode) (k : string) (d : NodeData) :
  searchNode (insertNode t k d) k <> NULL.
Proof.
  induction t as [| rk rd l IHl r IHr]; simpl.
  - rewrite strcmp_refl. simpl. discriminate.
  - order_keys k rk; simpl.
    + rewrite (strcmp_lt k rk Hlt), (strcmp_gt rk k Hlt). simpl. exact IHl.
    + rewrite strcmp_refl. simpl. discriminate.
    + rewrite (strcmp_gt k rk Hgt), (strcmp_lt rk k Hgt). simpl. exact IHr.
Qed.

Lemma insertNode_twice (t : TreeNode) (k : string) (d1 d2 : NodeData) :
  insertNode (insertNode t k d1) k d2 = insertNode t k d1.
Proof. apply insertNode_present, searchNode_insert_same. Qed.

Lemma searchNode_insert_other (t : TreeNode) (k k' : string) (d : NodeData) :
  k <> k' ->
  found (searchNode (insertNode t k d) k') = found (searchNode t k').
Proof.
  intros Hne. induction t as [| rk rd l IHl r IHr]; simpl.
  - order_keys k' k; try reflexivity. congruence.
  - order_keys k rk; simpl; order_keys k' rk; auto.
Qed.

Lemma all_keys_insert (P : string -> Prop) (t : TreeNode) (k : string)
  (d : NodeData) :
  P k -> all_keys P t -> all_keys P (insertNode t k d).
Proof.
  intros Hk. induction t as [| rk rd l IHl r IHr]; simpl.
  - auto.
  - intros (H0 & H1 & H2). order_keys k rk; simpl; auto.
Qed.

Lemma BST_insert (t : TreeNode) (k : string) (d : NodeData) :
  BST t -> BST (insertNode t k d).
Proof.
  induction t as [| rk rd l IHl r IHr]; simpl.
  - auto.
  - intros (Hl & Hr & Bl & Br). order_keys k rk; simpl.
    + repeat split; auto. apply all_keys_insert; assumption.
    + auto.
    + repeat split; auto. apply all_keys_insert; assumption.
Qed.

(** ** Deletion *)

Lemma deleteNode_absent (t : TreeNode) (k : string) :
  searchNode t k = NULL -> deleteNode t k = t.
Proof.
  induction t as [| rk rd l IHl r IHr]; simpl.
  - reflexivity.
  - order_keys k rk; intros H.
    + rewrite IHl by exact H. reflexivity.
    + discriminate.
    + rewrite IHr by exact H. reflexivity.
Qed.

(** The node [findMin] returns holds the first record of the traversal. *)
Lemma findMin_inorder (t : TreeNode) :
  t <> NULL ->
  exists k d l r rest,
    findMin t = Node k d l r /\ inorder t = (k, d) :: rest.
Proof.
  induction t as [| rk rd l IHl r _]; intros Hne; [contradiction |].
  destruct l as [| lk ld ll lr].
  - simpl. eauto 10.
  - destruct IHl as (k & d & l' & r' & rest & Hm & Hi); [discriminate |].
    exists k, d, l', r', (rest ++ (rk, rd) :: inorder r). split.
    + exact Hm.
    + change (inorder (Node rk rd (Node lk ld ll lr) r))
        with (inorder (Node lk ld ll lr) ++ (rk, rd) :: inorder r).
      rewrite Hi. reflexivity.
Qed.

Lemma filter_all {A : Type} (f : A -> bool) (l : list A) :
  Forall (fun x => f x = true) l -> List.filter f l = l.
Proof.
  induction 1 as [| a l Ha _ IH]; simpl; [reflexivity |].
  rewrite Ha, IH. reflexivity.
Qed.

Lemma has_key_false (k : string) (p : string * NodeData) :
  fst p <> k -> negb (has_key k p) = true.
Proof.
  intros H. unfold has_key. apply negb_true_iff, String.eqb_neq. exact H.
Qed.

Lemma has_key_other (k rk : string) (d : NodeData) :
  rk <> k -> has_key k (rk, d) = false.
Proof. intros H. unfold has_key. simpl. apply String.eqb_neq. exact H. Qed.

Lemma has_key_same (k : string) (d : NodeData) : has_key k (k, d) = true.
Proof. unfold has_key. simpl. apply String.eqb_refl. Qed.

Lemma filter_above (k : string) (t : TreeNode) :
  all_keys (fun x => key_lt k x) t ->
  List.filter (fun p => negb (has_key k p)) (inorder t) = inorder t.
Proof.
  intros H. apply filter_all. apply all_keys_Forall in H.
  unfold tree_keys in H. rewrite Forall_map in H.
  eapply List.Forall_impl; [| exact H]. intros p Hp. simpl in Hp.
  apply has_key_false. intros E. symmetry in E. revert E.
  apply key_lt_neq. exact Hp.
Qed.

Lemma filter_below (k : string) (t : TreeNode) :
  all_keys (fun x => key_lt x k) t ->
  List.filter (fun p => negb (has_key k p)) (inorder t) = inorder t.
Proof.
  intros H. apply filter_all. apply all_keys_Forall in H.
  unfold tree_keys in H. rewrite Forall_map in H.
  eapply List.Forall_impl; [| exact H]. intros p Hp. simpl in Hp.
  apply has_key_false. apply key_lt_neq. exact Hp.
Qed.

Lemma filter_drop_head (k : string) (d : NodeData)
  (l : list (string * NodeData)) :
  List.filter (fun p => negb (has_key k p)) ((k, d) :: l)
  = List.filter (fun p => negb (has_key k p)) l.
Proof. simpl. unfold has_key at 1. simpl. rewrite String.eqb_refl. reflexivity. Qed.

Lemma filter_keep_head (k rk : string) (d : NodeData)
  (l : list (string * NodeData)) :
  rk <> k ->
  List.filter (fun p => negb (has_key k p)) ((rk, d) :: l)
  = (rk, d) :: List.filter (fun p => negb (has_key k p)) l.
Proof.
  intros H. simpl. rewrite (has_key_false k (rk, d)) by exact H. reflexivity.
Qed.

(** Deleting a key from a search tree removes its record from the in-order
    sequence and leaves every other record in place. *)
Lemma inorder_deleteNode (t : TreeNode) :
  BST t ->
  forall k, inorder (deleteNode t k)
            = List.filter (fun p => negb (has_key k p)) (inorder t).
Proof.
  induction t as [| rk rd l IHl r IHr]; intros B k; [reflexivity |].
  destruct B as (Hl & Hr & Bl & Br).
  change (inorder (Node rk rd l r)) with (inorder l ++ (rk, rd) :: inorder r).
  rewrite List.filter_app.
  cbn [deleteNode]. order_keys k rk.
  - cbn [inorder]. rewrite IHl by exact Bl.
    rewrite filter_keep_head by (symmetry; apply key_lt_neq; exact Hlt).
    rewrite (filter_above k r); [reflexivity |].
    eapply all_keys_impl; [| exact Hr]. intros x Hx. simpl in Hx.
    eapply key_lt_trans; eassumption.
  - rewrite filter_drop_head, (filter_above rk r Hr), (filter_below rk l Hl).
    destruct l as [| lk ld ll lr]; [reflexivity |].
    destruct r as [| k' d' rl rr]; [symmetry; apply app_nil_r |].
    remember (Node lk ld ll lr) as l eqn:El.
    remember (Node k' d' rl rr) as r eqn:Er.
    destruct (findMin_inorder r) as (tk & td & tl & tr & rest & Hm & Hi);
      [subst r; discriminate |].
    rewrite Hm. cbn [inorder]. rewrite (IHr Br tk), Hi, filter_drop_head.
    f_equal. f_equal. apply filter_all.
    apply BST_sorted in Br. unfold tree_keys in Br. rewrite Hi in Br.
    simpl in Br. apply StronglySorted_inv in Br. destruct Br as [_ Hrest].
    rewrite Forall_map in Hrest.
    eapply List.Forall_impl; [| exact Hrest]. intros p Hp. simpl in Hp.
    apply has_key_false. intros E. symmetry in E. revert E.
    apply key_lt_neq. exact Hp.
  - cbn [inorder]. rewrite IHr by exact Br.
    rewrite filter_keep_head by (apply key_lt_neq; exact Hgt).
    rewrite (filter_below k l); [reflexivity |].
    eapply all_keys_impl; [| exact Hl]. intros x Hx. simpl in Hx.
    eapply key_lt_trans; eassumption.
Qed.

Lemma StronglySorted_filter {A : Type} (R : A -> A -> Prop) (f : A -> bool)
  (l : list A) :
  StronglySorted R l -> StronglySorted R (List.filter f l).
Proof.
  induction 1 as [| a l Hs IH Hf]; simpl; [constructor |].
  destruct (f a); [| exact IH].
  constructor; [exact IH |].
  apply List.Forall_forall. intros x Hx. apply List.filter_In in Hx.
  rewrite List.Forall_forall in Hf. apply Hf. tauto.
Qed.

Lemma map_fst_filter_key (k : string) (l : list (string * NodeData)) :
  map fst (List.filter (fun p => negb (has_key k p)) l)
  = List.filter (fun x => negb (x =? k)%string) (map fst l).
Proof.
  induction l as [| [a d] l IH]; simpl; [reflexivity |].
  unfold has_key at 1. simpl. destruct (a =? k)%string; simpl; rewrite IH; reflexivity.
Qed.

Lemma BST_delete (t : TreeNode) (k : string) :
  BST t -> BST (deleteNode t k).
Proof.
  intros B. apply BST_sorted. unfold tree_keys.
  rewrite inorder_deleteNode by exact B. rewrite map_fst_filter_key.
  apply StronglySorted_filter. apply BST_sorted. exact B.
Qed.

(** In a search tree a search returns the record the traversal lists
    under the key. *)
Lemma found_searchNode (t : TreeNode) (k : string) :
  BST t -> found (searchNode t k) = List.find (has_key k) (inorder t).
Proof.
  induction t as [| rk rd l IHl r IHr]; intros B; [reflexivity |].
  destruct B as (Hl & Hr & Bl & Br).
  cbn [searchNode inorder].
  assert (Hfind : forall t' : TreeNode,
             all_keys (fun x => x <> k) t' ->
             List.find (has_key k) (inorder t') = None).
  { intros t' H. apply all_keys_Forall in H. unfold tree_keys in H.
    rewrite Forall_map in H. induction H as [| p ps Hp _ IH]; [reflexivity |].
    simpl. unfold has_key at 1. apply String.eqb_neq in Hp. simpl in Hp.
    rewrite Hp. exact IH. }
  assert (Happ : forall (l1 l2 : list (string * NodeData)),
             List.find (has_key k) (l1 ++ l2)
             = match List.find (has_key k) l1 with
               | Some p => Some p
               | None => List.find (has_key k) l2
               end).
  { intros l1 l2. induction l1 as [| a l1 IH]; simpl; [reflexivity |].
    destruct (has_key k a); [reflexivity | exact IH]. }
  rewrite Happ. order_keys k rk.
  - rewrite IHl by exact Bl.
    destruct (List.find (has_key k) (inorder l)); [reflexivity |].
    cbn [List.find].
    rewrite has_key_other by (symmetry; apply key_lt_neq; exact Hlt).
    symmetry. apply Hfind.
    eapply all_keys_impl; [| exact Hr]. intros x Hx. simpl in Hx. intros E'.
    subst. exact (key_lt_asym _ _ Hlt Hx).
  - rewrite (Hfind l).
    + cbn [List.find]. rewrite has_key_same. reflexivity.
    + eapply all_keys_impl; [| exact Hl]. intros x Hx. simpl in Hx.
      apply key_lt_neq. exact Hx.
  - rewrite IHr by exact Br. rewrite (Hfind l).
    + cbn [List.find].
      rewrite has_key_other by (apply key_lt_neq; exact Hgt). reflexivity.
    + eapply all_keys_impl; [| exact Hl]. intros x Hx. simpl in Hx. intros E'.
      subst. exact (key_lt_asym _ _ Hgt Hx).
Qed.

Lemma found_None (t : TreeNode) : found t = None <-> t = NULL.
Proof. destruct t; simpl; split; intros H; congruence. Qed.

Lemma find_filter_same (k : string) (l : list (string * NodeData)) :
  List.find (has_key k) (List.filter (fun p => negb (has_key k p)) l) = None.
Proof.
  induction l as [| a l IH]; simpl; [reflexivity |].
  destruct (has_key k a) eqn:E; simpl; [exact IH |].
  rewrite E. exact IH.
Qed.

Lemma find_filter_other (k k' : string) (l : list (string * NodeData)) :
  k' <> k ->
  List.find (has_key k') (List.filter (fun p => negb (has_key k p)) l)
  = List.find (has_key k') l.
Proof.
  intros Hne. induction l as [| [a d] l IH]; simpl; [reflexivity |].
  destruct (has_key k (a, d)) eqn:E; simpl.
  - unfold has_key in E. simpl in E. apply String.eqb_eq in E. subst a.
    rewrite has_key_other by congruence. exact IH.
  - destruct (has_key k' (a, d)); [reflexivity | exact IH].
Qed.

(** What a search sees after a deletion. *)
Lemma found_deleteNode (t : TreeNode) (k k' : string) :
  BST t ->
  found (searchNode (deleteNode t k) k')
  = if (k' =? k)%string then None else found (searchNode t k').
Proof.
  intros B.
  rewrite (found_searchNode _ _ (BST_delete t k B)), inorder_deleteNode by exact B.
  rewrite (found_searchNode t k' B).
  destruct (String.eqb_spec k' k) as [-> | Hne].
  - apply find_filter_same.
  - apply find_filter_other. exact Hne.
Qed.

Lemma find_has_key_None (k : string) (l : list (string * NodeData)) :
  List.find (has_key k) l = None <-> ~ In k (map fst l).
Proof.
  induction l as [| [a d] l IH]; simpl; [tauto |].
  destruct (has_key k (a, d)) eqn:E; unfold has_key in E; simpl in E.
  - apply String.eqb_eq in E. split; [discriminate | tauto].
  - apply String.eqb_neq in E. rewrite IH. tauto.
Qed.

Lemma searchNode_absent (t : TreeNode) (k : string) :
  BST t -> (searchNode t k = NULL <-> ~ In k (tree_keys t)).
Proof.
  intros B. rewrite <- found_None, (found_searchNode t k B).
  apply find_has_key_None.
Qed.

Lemma sorted_NoDup (l : list string) :
  StronglySorted key_lt l -> List.NoDup l.
Proof.
  induction 1 as [| a l _ IH Hf]; constructor; [| exact IH].
  intros Hin. rewrite List.Forall_forall in Hf.
  exact (key_lt_irrefl a (Hf a Hin)).
Qed.

(** In a sorted sequence the record found under a key is the only one with
    that key, and filtering the key out removes exactly that record. *)
Lemma sorted_split (k : string) (p : string * NodeData)
  (l : list (string * NodeData)) :
  StronglySorted key_lt (map fst l) ->
  List.find (has_key k) l = Some p ->
  exists l1 l2,
    l = l1 ++ p :: l2
    /\ List.filter (fun q => negb (has_key k q)) l = l1 ++ l2
    /\ List.filter (has_key k) l = [p].
Proof.
  induction l as [| [a d] l IH]; simpl; [discriminate |].
  intros S Hf. apply StronglySorted_inv in S. destruct S as [S Ha].
  destruct (has_key k (a, d)) eqn:E.
  - injection Hf as <-. unfold has_key in E. simpl in E.
    apply String.eqb_eq in E. subst a. exists [], l. simpl.
    rewrite Forall_map in Ha.
    split; [reflexivity |]. split.
    + apply filter_all. eapply List.Forall_impl; [| exact Ha].
      intros q Hq. simpl in Hq. apply has_key_false.
      intros E. symmetry in E. revert E. apply key_lt_neq. exact Hq.
    + f_equal. clear IH S. induction Ha as [| q l Hq _ IH]; [reflexivity |].
      simpl. destruct q as [b e]. rewrite has_key_other; [exact IH |].
      intros E'. symmetry in E'. revert E'. apply key_lt_neq. exact Hq.
  - destruct (IH S Hf) as (l1 & l2 & -> & H2 & H3).
    exists ((a, d) :: l1), l2. simpl. rewrite H2, H3. auto.
Qed.

(** ** Console and catalog lemmas *)

Lemma getIntegerInput_frame (sscanf_d : string -> option Z) (w : World)
  (o s : list string) :
  getIntegerInput sscanf_d {| stdin := stdin w; stdout := o; searched := s |}
  = (fst (getIntegerInput sscanf_d w),
     {| stdin := stdin (snd (getIntegerInput sscanf_d w));
        stdout := o; searched := s |}).
Proof.
  destruct w as [i o0 s0]. unfold getIntegerInput, bind, fgets, ret.
  cbn [stdin stdout searched].
  destruct i as [| c r]; [reflexivity |].
  destruct (read_line (Z.to_nat (100 - 1)) (String c r)) as [line rest].
  destruct (sscanf_d line); reflexivity.
Qed.

Lemma push_key_keys (k : string) (b : KeyBuffer) :
  keys (push_key k b) = keys b ++ [k] /\ count (push_key k b) = count b + 1.
Proof. split; reflexivity. Qed.

(** The collection appends the ticket keys of the event in traversal order
    and counts them. *)
Lemma collect_keys (t : TreeNode) (c : Z) (b : KeyBuffer) :
  keys (collectTicketKeysForEvent t c b) = keys b ++ ticket_keys_of t c
  /\ count (collectTicketKeysForEvent t c b)
     = count b + Z.of_nat (length (ticket_keys_of t c)).
Proof.
  unfold ticket_keys_of. revert b.
  induction t as [| k d l IHl r IHr]; intros b; simpl.
  - rewrite app_nil_r. split; [reflexivity | lia].
  - rewrite List.filter_app, map_app, length_app. simpl.
    destruct (IHl b) as [Kl Cl].
    destruct (ticket_of_event c d); simpl.
    + destruct (IHr (push_key k (collectTicketKeysForEvent l c b))) as [Kr Cr].
      rewrite Kr, Cr. simpl. rewrite Kl, Cl. rewrite <- !app_assoc. simpl.
      split; [reflexivity | lia].
    + destruct (IHr (collectTicketKeysForEvent l c b)) as [Kr Cr].
      rewrite Kr, Cr, Kl, Cl. rewrite <- !app_assoc.
      split; [reflexivity | lia].
Qed.

(** The array never overflows: a write finds room below the capacity. *)
Lemma collect_capacity (t : TreeNode) (c : Z) (b : KeyBuffer) :
  0 < capacity b -> count b <= capacity b ->
  0 < capacity (collectTicketKeysForEvent t c b)
  /\ count (collectTicketKeysForEvent t c b)
     <= capacity (collectTicketKeysForEvent t c b).
Proof.
  revert b. induction t as [| k d l IHl r IHr]; intros b Hc Hn; simpl.
  - auto.
  - destruct (IHl b Hc Hn) as [Hc1 Hn1].
    destruct (ticket_of_event c d); [| apply IHr; assumption].
    apply IHr; unfold push_key; simpl;
      destruct (Z.leb_spec (capacity (collectTicketKeysForEvent l c b))
                           (count (collectTicketKeysForEvent l c b))); lia.
Qed.

Lemma delete_keys_collected (t : TreeNode) (c : Z) :
  delete_keys t (collectTicketKeysForEvent t c empty_buffer)
  = fold_left deleteNode (ticket_keys_of t c) t.
Proof.
  unfold delete_keys. destruct (collect_keys t c empty_buffer) as [K C].
  rewrite K, C. unfold empty_buffer. cbn [keys count].
  rewrite Z.add_0_l, Nat2Z.id, app_nil_l, firstn_all. reflexivity.
Qed.

Lemma BST_delete_all (ks : list string) (t : TreeNode) :
  BST t -> BST (fold_left deleteNode ks t).
Proof.
  revert t. induction ks as [| k ks IH]; intros t B; simpl; [exact B |].
  apply IH, BST_delete, B.
Qed.

Lemma found_delete_all_in (ks : list string) (t : TreeNode) (k : string) :
  BST t -> In k ks ->
  found (searchNode (fold_left deleteNode ks t) k) = None.
Proof.
  revert t. induction ks as [| a ks IH]; intros t B Hin; [contradiction |].
  simpl. destruct (in_dec string_dec k ks) as [Hk | Hk].
  - apply IH; [apply BST_delete, B | exact Hk].
  - destruct Hin as [-> | Hin]; [| contradiction].
    clear IH. assert (Hd : found (searchNode (deleteNode t k) k) = None).
    { rewrite found_deleteNode by exact B. rewrite String.eqb_refl. reflexivity. }
    assert (Bd : BST (deleteNode t k)) by (apply BST_delete, B).
    revert Hd Bd. generalize (deleteNode t k) as u.
    induction ks as [| b ks IH]; intros u Hd Bd; [exact Hd |].
    simpl. apply IH.
    + intros Hin. apply Hk. right. exact Hin.
    + rewrite found_deleteNode by exact Bd.
      destruct (k =? b)%string; [reflexivity | exact Hd].
    + apply BST_delete, Bd.
Qed.

Lemma found_delete_all_out (ks : list string) (t : TreeNode) (k : string) :
  BST t -> ~ In k ks ->
  found (searchNode (fold_left deleteNode ks t) k) = found (searchNode t k).
Proof.
  revert t. induction ks as [| a ks IH]; intros t B Hout; [reflexivity |].
  simpl. rewrite IH.
  - rewrite found_deleteNode by exact B.
    destruct (String.eqb_spec k a) as [-> | Hne]; [| reflexivity].
    exfalso. apply Hout. left. reflexivity.
  - apply BST_delete, B.
  - intros Hin. apply Hout. right. exact Hin.
Qed.

Lemma is_null_true (t : TreeNode) : is_null t = true <-> t = NULL.
Proof. destruct t; simpl; split; intros H; congruence. Qed.

Lemma is_null_false (t : TreeNode) : is_null t = false <-> t <> NULL.
Proof. destruct t; simpl; split; intros H; congruence. Qed.

(** Unfolds the prompts of an event or ticket function up to the reading of
    the code. *)
Ltac read_code :=
  unfold bind, printf, ret; cbn [stdin stdout searched];
  rewrite getIntegerInput_frame; cbn [fst snd stdin stdout searched].

Section CatalogFacts.

Variable sscanf_d : string -> option Z.

Lemma addEvent_negative (e : Event) (t : TreeNode) (w : World) :
  fst (getIntegerInput sscanf_d w) < 0 ->
  addEvent sscanf_d e t w
  = (t, {| stdin := stdin (snd (getIntegerInput sscanf_d w));
           stdout := stdout w ++ [ nl +:+ "--- Add New Event ---" +:+ nl;
                                   "Enter event code (integer): ";
                                   "(!) Invalid code." +:+ nl ];
           searched := searched w |}).
Proof.
  intros H. unfold addEvent. read_code.
  apply Z.ltb_lt in H. rewrite H. cbn [stdin stdout searched].
  rewrite <- !app_assoc. reflexivity.
Qed.

Lemma findEvent_negative (t : TreeNode) (w : World) :
  fst (getIntegerInput sscanf_d w) < 0 ->
  findEvent sscanf_d t w
  = (tt, {| stdin := stdin (snd (getIntegerInput sscanf_d w));
            stdout := stdout w ++ [ nl +:+ "--- Search for Event ---" +:+ nl;
                                    "Enter event code to search for: ";
                                    "(!) Invalid code." +:+ nl ];
            searched := searched w |}).
Proof.
  intros H. unfold findEvent. read_code.
  apply Z.ltb_lt in H. rewrite H. cbn [stdin stdout searched].
  rewrite <- !app_assoc. reflexivity.
Qed.

Lemma removeEvent_negative (t : TreeNode) (w : World) :
  fst (getIntegerInput sscanf_d w) < 0 ->
  removeEvent sscanf_d t w
  = (t, {| stdin := stdin (snd (getIntegerInput sscanf_d w));
           stdout := stdout w ++ [ nl +:+ "--- Delete Event ---" +:+ nl;
                                   "Enter event code to delete: ";
                                   "(!) Invalid code." +:+ nl ];
           searched := searched w |}).
Proof.
  intros H. unfold removeEvent. read_code.
  apply Z.ltb_lt in H. rewrite H. cbn [stdin stdout searched].
  rewrite <- !app_assoc. reflexivity.
Qed.

Lemma addTicket_negative (nt : Ticket) (t : TreeNode) (w : World) :
  fst (getIntegerInput sscanf_d w) < 0 ->
  addTicket sscanf_d nt t w
  = (t, {| stdin := stdin (snd (getIntegerInput sscanf_d w));
           stdout := stdout w ++ [ nl +:+ "--- Issue Ticket ---" +:+ nl;
                                   "Enter event code: ";
                                   "(!) Invalid code." +:+ nl ];
           searched := searched w |}).
Proof.
  intros H. unfold addTicket. read_code.
  apply Z.ltb_lt in H. rewrite H. cbn [stdin stdout searched].
  rewrite <- !app_assoc. reflexivity.
Qed.

Lemma addTicket_no_event (nt : Ticket) (t : TreeNode) (w : World) :
  0 <= fst (getIntegerInput sscanf_d w) ->
  searchNode t (event_key (fst (getIntegerInput sscanf_d w))) = NULL ->
  addTicket sscanf_d nt t w
  = (t, {| stdin := stdin (snd (getIntegerInput sscanf_d w));
           stdout := stdout w
                     ++ [ nl +:+ "--- Issue Ticket ---" +:+ nl;
                          "Enter event code: ";
                          "(!) Error: No event exists with code "
                          +:+ fmt_d (fst (getIntegerInput sscanf_d w))
                          +:+ "." +:+ nl ];
           searched := searched w
                       ++ [event_key (fst (getIntegerInput sscanf_d w))] |}).
Proof.
  intros H Hs. unfold addTicket. read_code.
  apply Z.ltb_ge in H. rewrite H. unfold search.
  cbn [stdin stdout searched]. rewrite Hs. cbn [is_null stdin stdout searched].
  rewrite <- !app_assoc. reflexivity.
Qed.

Lemma removeEvent_found (t : TreeNode) (w : World) :
  0 <= fst (getIntegerInput sscanf_d w) ->
  searchNode t (event_key (fst (getIntegerInput sscanf_d w))) <> NULL ->
  removeEvent sscanf_d t w
  = (deleteNode
       (fold_left deleteNode
          (ticket_keys_of t (fst (getIntegerInput sscanf_d w))) t)
       (event_key (fst (getIntegerInput sscanf_d w))),
     {| stdin := stdin (snd (getIntegerInput sscanf_d w));
        stdout := stdout w
                  ++ [ nl +:+ "--- Delete Event ---" +:+ nl;
                       "Enter event code to delete: ";
                       "-> Deleting "
                       +:+ fmt_d (Z.of_nat
                                    (length
                                       (ticket_keys_of t
                                          (fst (getIntegerInput sscanf_d w)))))
                       +:+ " tickets associated with the event..." +:+ nl;
                       "-> Event with code "
                       +:+ fmt_d (fst (getIntegerInput sscanf_d w))
                       +:+ " and all its tickets have been deleted." +:+ nl ];
        searched := searched w
                    ++ [event_key (fst (getIntegerInput sscanf_d w))] |}).
Proof.
  intros H Hs. unfold removeEvent. read_code.
  apply Z.ltb_ge in H. rewrite H. unfold search.
  cbn [stdin stdout searched]. apply is_null_false in Hs. rewrite Hs.
  cbn [stdin stdout searched].
  change {| keys := []; count := 0; capacity := 10 |} with empty_buffer.
  rewrite delete_keys_collected.
  destruct (collect_keys t (fst (getIntegerInput sscanf_d w)) empty_buffer)
    as [_ C].
  rewrite C. unfold empty_buffer. cbn [count]. rewrite Z.add_0_l.
  rewrite <- !app_assoc. reflexivity.
Qed.

End CatalogFacts.

(** ** Keys of negative codes *)

Lemma fmt_d_nonneg (c : Z) :
  0 <= c -> exists ch r, fmt_d c = String ch r /\ isdigit (uchar ch) = true.
Proof.
  intros H. unfold fmt_d. destruct c as [| p | p]; [| | lia].
  - exists "0"%char, EmptyString. split; reflexivity.
  - unfold Z.to_int, NilZero.string_of_int, NilZero.string_of_uint.
    destruct (Pos.to_uint p); simpl; eexists; eexists; split; reflexivity.
Qed.

Lemma fmt_d_neg (c : Z) : c < 0 -> exists r, fmt_d c = String "-" r.
Proof.
  intros H. unfold fmt_d. destruct c as [| p | p]; [lia | lia |].
  simpl. eexists. reflexivity.
Qed.

Lemma clean_not_negative (k : string) (c : Z) :
  clean k -> c < 0 -> ~ built_from c k.
Proof.
  intros (c0 & H0 & Hk) Hc Hb.
  destruct (fmt_d_nonneg c0 H0) as (ch & r & E0 & Hd).
  destruct (fmt_d_neg c Hc) as (r' & E).
  unfold built_from, event_key, ticket_key in *. rewrite E0 in Hk. rewrite E in Hb.
  destruct Hk as [-> | [s ->]]; destruct Hb as [Hb | [s' Hb]];
    simpl in Hb; try discriminate; injection Hb as -> _; discriminate.
Qed.

Lemma all_keys_findMin (P : string -> Prop) (t : TreeNode) (k : string)
  (d : NodeData) (l r : TreeNode) :
  all_keys P t -> findMin t = Node k d l r -> P k.
Proof.
  induction t as [| rk rd tl IHl tr _]; [discriminate |].
  intros (Hk & Hl & _). destruct tl as [| lk ld ll lr].
  - simpl. intros E. injection E as <- _ _ _. exact Hk.
  - intros E. apply IHl; assumption.
Qed.

Lemma all_keys_delete (P : string -> Prop) (t : TreeNode) :
  all_keys P t -> forall k, all_keys P (deleteNode t k).
Proof.
  induction t as [| rk rd l IHl r IHr]; intros H k; [exact I |].
  destruct H as (Hk & Hl & Hr). cbn [deleteNode]. order_keys k rk.
  - simpl. auto.
  - destruct l as [| lk ld ll lr]; [exact Hr |].
    destruct r as [| k' d' rl rr]; [exact Hl |].
    destruct (findMin (Node k' d' rl rr)) as [| tk td tl tr] eqn:Em.
    + simpl. auto.
    + split; [| split].
      * eapply all_keys_findMin; eassumption.
      * exact Hl.
      * apply IHr. exact Hr.
  - simpl. auto.
Qed.

Lemma all_keys_delete_all (P : string -> Prop) (ks : list string)
  (t : TreeNode) :
  all_keys P t -> all_keys P (fold_left deleteNode ks t).
Proof.
  revert t. induction ks as [| k ks IH]; intros t H; [exact H |].
  simpl. apply IH, all_keys_delete, H.
Qed.

(** ** What the functions pass to [searchNode] *)

Lemma keeps_clean_ret {A : Type} (a : A) (Q : A -> Prop) :
  Q a -> keeps_clean (ret a) Q.
Proof. intros H w Hw. split; assumption. Qed.

Lemma keeps_clean_bind {A B : Type} (m : IO A) (k : A -> IO B)
  (P : A -> Prop) (Q : B -> Prop) :
  keeps_clean m P -> (forall a, P a -> keeps_clean (k a) Q) ->
  keeps_clean (bind m k) Q.
Proof.
  intros Hm Hk w Hw. unfold bind. destruct (Hm w Hw) as [Ha Hw'].
  destruct (m w) as [a w']. exact (Hk a Ha w' Hw').
Qed.

Lemma keeps_clean_printf (s : string) :
  keeps_clean (printf s) (fun _ => True).
Proof. intros w Hw. split; [exact I | exact Hw]. Qed.

Lemma keeps_clean_printfs (l : list string) :
  keeps_clean (printfs l) (fun _ => True).
Proof. intros w Hw. split; [exact I | exact Hw]. Qed.

Lemma keeps_clean_fgets (n : Z) : keeps_clean (fgets n) (fun _ => True).
Proof.
  intros w Hw. split; [exact I |]. unfold fgets.
  destruct (stdin w); [exact Hw |]. destruct (read_line _ _). exact Hw.
Qed.

Lemma keeps_clean_search (t : TreeNode) (k : string) :
  clean k -> keeps_clean (search t k) (fun r => r = searchNode t k).
Proof.
  intros Hk w Hw. split; [reflexivity |]. simpl.
  apply Forall_app. split; [exact Hw | constructor; [exact Hk | constructor]].
Qed.

Lemma clean_event_key (c : Z) : (c <? 0) = false -> clean (event_key c).
Proof.
  intros H. apply Z.ltb_ge in H. exists c. split; [exact H | left; reflexivity].
Qed.

Lemma clean_ticket_key (c : Z) (s : string) :
  (c <? 0) = false -> clean (ticket_key c s).
Proof.
  intros H. apply Z.ltb_ge in H. exists c.
  split; [exact H | right; exists s; reflexivity].
Qed.

Ltac clean_step :=
  first
    [ apply keeps_clean_ret
    | eapply keeps_clean_bind;
      [ first [ apply keeps_clean_printf
              | apply keeps_clean_printfs
              | apply keeps_clean_fgets
              | apply keeps_clean_search;
                first [ apply clean_event_key | apply clean_ticket_key ];
                assumption ]
      | intros ? ? ]
    | match goal with
      | |- keeps_clean (if ?b then _ else _) _ => destruct b eqn:?
      | |- keeps_clean (match ?o with Some _ => _ | None => _ end) _ =>
          destruct o
      end ].

Section CleanKeys.

Variable sscanf_d : string -> option Z.

Lemma keeps_clean_int :
  keeps_clean (getIntegerInput sscanf_d) (fun _ => True).
Proof. unfold getIntegerInput. repeat clean_step; exact I. Qed.

Lemma keeps_clean_str (buffer : string) (size : Z) :
  keeps_clean (getStringInput buffer size) (fun _ => True).
Proof. unfold getStringInput. repeat clean_step; exact I. Qed.

Ltac clean_io :=
  repeat first
    [ clean_step
    | eapply keeps_clean_bind;
      [ first [ apply keeps_clean_int | apply keeps_clean_str ]
      | intros ? ? ] ].

(** A property of trees that inserting under a clean key and deleting
    preserve. *)
Variable P : TreeNode -> Prop.

Hypothesis P_insert :
  forall t k d, clean k -> P t -> P (insertNode t k d).

Hypothesis P_delete : forall t k, P t -> P (deleteNode t k).

Lemma P_delete_all (ks : list string) (t : TreeNode) :
  P t -> P (fold_left deleteNode ks t).
Proof.
  revert t. induction ks as [| k ks IH]; intros t H; [exact H |].
  simpl. apply IH, P_delete, H.
Qed.

Lemma addEvent_keeps (e : Event) (t : TreeNode) :
  P t -> keeps_clean (addEvent sscanf_d e t) P.
Proof.
  intros H. unfold addEvent. clean_io; try exact H.
  apply P_insert; [apply clean_event_key; assumption | exact H].
Qed.

Lemma addTicket_keeps (nt : Ticket) (t : TreeNode) :
  P t -> keeps_clean (addTicket sscanf_d nt t) P.
Proof.
  intros H. unfold addTicket. clean_io; try exact H.
  apply P_insert; [apply clean_ticket_key; assumption | exact H].
Qed.

Lemma removeEvent_keeps (t : TreeNode) :
  P t -> keeps_clean (removeEvent sscanf_d t) P.
Proof.
  intros H. unfold removeEvent. clean_io; try exact H.
  apply P_delete. unfold delete_keys. apply P_delete_all, H.
Qed.

Lemma findEvent_keeps (t : TreeNode) :
  keeps_clean (findEvent sscanf_d t) (fun _ => True).
Proof. unfold findEvent. clean_io; exact I. Qed.

Lemma printEvents_keeps (t : TreeNode) :
  keeps_clean (printEvents t) (fun _ => True).
Proof. unfold printEvents. clean_io; exact I. Qed.

Lemma findTicket_keeps (s : string) (t : TreeNode) :
  keeps_clean (findTicket sscanf_d s t) (fun _ => True).
Proof. unfold findTicket. clean_io; exact I. Qed.

Lemma printTicketsForEvent_keeps (t : TreeNode) :
  keeps_clean (printTicketsForEvent sscanf_d t) (fun _ => True).
Proof. unfold printTicketsForEvent. clean_io; exact I. Qed.

Variable local_event : Event.
Variable local_ticket : Ticket.
Variable local_seat : string.

Lemma eventMenu_keeps (fuel : nat) (t : TreeNode) :
  P t ->
  keeps_clean (eventMenu sscanf_d local_event fuel t) (fun r => P (snd r)).
Proof.
  revert t. induction fuel as [| fuel IH]; intros t H; simpl.
  - apply keeps_clean_ret, H.
  - do 7 clean_step.
    eapply keeps_clean_bind; [apply keeps_clean_int | intros choice _].
    repeat match goal with
           | |- keeps_clean (if ?b then _ else _) _ => destruct b
           end.
    + eapply keeps_clean_bind; [apply addEvent_keeps, H | exact IH].
    + eapply keeps_clean_bind; [apply findEvent_keeps |].
      intros _ _. apply IH, H.
    + eapply keeps_clean_bind; [apply removeEvent_keeps, H | exact IH].
    + eapply keeps_clean_bind; [apply printEvents_keeps |].
      intros _ _. apply IH, H.
    + apply keeps_clean_ret, H.
    + clean_step. apply IH, H.
Qed.

Lemma ticketMenu_keeps (fuel : nat) (t : TreeNode) :
  P t ->
  keeps_clean (ticketMenu sscanf_d local_ticket local_seat fuel t)
    (fun r => P (snd r)).
Proof.
  revert t. induction fuel as [| fuel IH]; intros t H; simpl.
  - apply keeps_clean_ret, H.
  - do 6 clean_step.
    eapply keeps_clean_bind; [apply keeps_clean_int | intros choice _].
    repeat match goal with
           | |- keeps_clean (if ?b then _ else _) _ => destruct b
           end.
    + eapply keeps_clean_bind; [apply addTicket_keeps, H | exact IH].
    + eapply keeps_clean_bind; [apply findTicket_keeps |].
      intros _ _. apply IH, H.
    + eapply keeps_clean_bind; [apply printTicketsForEvent_keeps |].
      intros _ _. apply IH, H.
    + apply keeps_clean_ret, H.
    + clean_step. apply IH, H.
Qed.

Hypothesis P_empty : P NULL.

Lemma main_loop_keeps (fuel : nat) (t : TreeNode) :
  P t ->
  keeps_clean
    (main_loop sscanf_d local_event local_ticket local_seat fuel t)
    (fun r => P (snd r)).
Proof.
  revert t. induction fuel as [| fuel IH]; intros t H; simpl.
  - apply keeps_clean_ret, H.
  - do 5 clean_step.
    eapply keeps_clean_bind; [apply keeps_clean_int | intros choice _].
    repeat match goal with
           | |- keeps_clean (if ?b then _ else _) _ => destruct b
           end.
    + eapply keeps_clean_bind; [apply eventMenu_keeps, H |].
      intros [fin t'] H'. simpl in H' |- *.
      destruct fin; [apply IH, H' | apply keeps_clean_ret, H'].
    + eapply keeps_clean_bind; [apply ticketMenu_keeps, H |].
      intros [fin t'] H'. simpl in H' |- *.
      destruct fin; [apply IH, H' | apply keeps_clean_ret, H'].
    + repeat clean_step. exact P_empty.
    + clean_step. apply IH, H.
Qed.

End CleanKeys.

(** Every tree the program reaches from the empty one is a search tree
    whose keys are clean, and every key it searched for is clean. *)
Lemma program_trees (sscanf_d : string -> option Z) (e : Event) (nt : Ticket)
  (s : string) (fuel : nat) (input : string) :
  BST (snd (fst (main_loop sscanf_d e nt s fuel NULL (console input))))
  /\ all_keys clean
       (snd (fst (main_loop sscanf_d e nt s fuel NULL (console input))))
  /\ Forall clean
       (searched (snd (main_loop sscanf_d e nt s fuel NULL (console input)))).
Proof.
  destruct (main_loop_keeps sscanf_d (fun t => BST t /\ all_keys clean t))
    with (local_event := e) (local_ticket := nt) (local_seat := s)
         (fuel := fuel) (t := NULL) (w := console input) as [[B C] S].
  - intros t k d Hk [B C].
    split; [apply BST_insert, B | apply all_keys_insert; assumption].
  - intros t k [B C]. split; [apply BST_delete, B | apply all_keys_delete, C].
  - split; exact I.
  - split; exact I.
  - constructor.
  - auto.
Qed.

Lemma searchNode_all_keys (P : string -> Prop) (t : TreeNode) (k : string) :
  all_keys P t -> searchNode t k <> NULL -> P k.
Proof.
  induction t as [| rk rd l IHl r IHr]; simpl; [intros _ H; contradiction |].
  order_keys k rk; intros (Hk & Hl & Hr) H; auto.
Qed.

(** In such a tree an event key that is found belongs to a code that is
    not negative. *)
Lemma found_event_nonneg (t : TreeNode) (c : Z) :
  all_keys clean t -> searchNode t (event_key c) <> NULL -> 0 <= c.
Proof.
  intros C Hs. destruct (Z.le_gt_cases 0 c) as [H | H]; [exact H |].
  exfalso.
  apply (clean_not_negative (event_key c) c
           (searchNode_all_keys clean t _ C Hs)); [lia |].
  left. reflexivity.
Qed.

(** ** Records of a search tree *)

(** A key that is found is a key of the tree, search tree or not. *)
Lemma searchNode_In (t : TreeNode) (k : string) :
  searchNode t k <> NULL -> In k (tree_keys t).
Proof.
  unfold tree_keys. induction t as [| rk rd l IHl r IHr]; simpl;
    [intros H; contradiction |].
  rewrite map_app, in_app_iff. simpl. order_keys k rk; intros H.
  - left. apply IHl, H.
  - right. left. reflexivity.
  - right. right. apply IHr, H.
Qed.

Lemma searchNode_not_In (t : TreeNode) (k : string) :
  ~ In k (tree_keys t) -> searchNode t k = NULL.
Proof.
  intros H. destruct (searchNode t k) eqn:E; [reflexivity |].
  exfalso. apply H, searchNode_In. rewrite E. discriminate.
Qed.

Lemma find_In_sorted (k : string) (d : NodeData)
  (l : list (string * NodeData)) :
  StronglySorted key_lt (map fst l) ->
  In (k, d) l -> List.find (has_key k) l = Some (k, d).
Proof.
  induction l as [| [a e] l IH]; simpl; [contradiction |].
  intros S Hin. apply StronglySorted_inv in S. destruct S as [S Ha].
  destruct Hin as [E | Hin].
  - injection E as -> ->. rewrite has_key_same. reflexivity.
  - rewrite has_key_other; [apply IH; assumption |].
    rewrite List.Forall_forall in Ha. apply key_lt_neq, Ha.
    apply in_map_iff. exists (k, d). split; [reflexivity | exact Hin].
Qed.

Lemma found_In (t : TreeNode) (k : string) (d : NodeData) :
  BST t -> In (k, d) (inorder t) -> found (searchNode t k) = Some (k, d).
Proof.
  intros B Hin. rewrite found_searchNode by exact B.
  apply find_In_sorted; [apply BST_sorted; exact B | exact Hin].
Qed.

Lemma ticket_keys_of_In (t : TreeNode) (c : Z) (k : string) :
  In k (ticket_keys_of t c) <->
  exists d, In (k, d) (inorder t) /\ ticket_of_event c d = true.
Proof.
  unfold ticket_keys_of. rewrite in_map_iff. split.
  - intros ([k' d] & E & Hin). simpl in E. subst k'.
    apply List.filter_In in Hin. exists d. exact Hin.
  - intros (d & Hin & Ht). exists (k, d). split; [reflexivity |].
    apply List.filter_In. split; assumption.
Qed.

(** ** The seat validator *)

Lemma atoi_digits (r : string) :
  all_digits r = true -> atoi r = digits_value 0 r.
Proof.
  destruct r as [| c r]; [reflexivity |].
  cbn [all_digits]. intros H. apply andb_true_iff in H. destruct H as [Hc _].
  unfold atoi. cbn [skip_space].
  assert (Hs : isspace (uchar c) = false).
  { unfold isdigit in Hc. unfold isspace. lia. }
  rewrite Hs.
  assert (H45 : (uchar c =? 45) = false) by (unfold isdigit in Hc; lia).
  assert (H43 : (uchar c =? 43) = false) by (unfold isdigit in Hc; lia).
  rewrite H45, H43. reflexivity.
Qed.

(** Every seat of the specified format is accepted. *)
Lemma validateSeat_accepts_format (s : string) :
  seat_format_spec s = true -> validateSeat s = 1.
Proof.
  destruct s as [| c r]; [discriminate |].
  unfold seat_format_spec, validateSeat.
  intros H. repeat (apply andb_true_iff in H; destruct H as [H ?]).
  rewrite atoi_digits by assumption.
  repeat match goal with
         | |- context [if ?b then _ else _] =>
             let E := fresh in destruct b eqn:E; try lia
         end.
Qed.

(** What the validator accepts, in the terms of its own tests. *)
Lemma validateSeat_accepts_iff (s : string) :
  validateSeat s = 1 <->
  exists c r,
    s = String c r
    /\ 2 <= strlen s <= 4
    /\ 97 <= tolower (uchar c) <= 104
    /\ 1 <= atoi r <= 500.
Proof.
  unfold validateSeat. split.
  - destruct s as [| c r]; [simpl; discriminate |].
    intros H. exists c, r.
    repeat match type of H with
           | context [if ?b then _ else _] =>
               let E := fresh in destruct b eqn:E; try discriminate
           end.
    repeat split; lia.
  - intros (c & r & -> & H1 & H2 & H3).
    repeat match goal with
           | |- context [if ?b then _ else _] =>
               let E := fresh in destruct b eqn:E; try lia
           end.
Qed.

(** ** The functions that only read the tree *)

Lemma load_inv (p : Heap.loc) (h h' : Heap.heap) (c : Heap.Cell) :
  Heap.load p h = Some (c, h') -> h !! p = Some c /\ h' = h.
Proof.
  unfold Heap.load. destruct (h !! p) as [c0 |]; [| discriminate].
  intros E. injection E as -> ->. split; reflexivity.
Qed.

Lemma bind_inv {A B : Type} (m : Heap.Mem A) (k : A -> Heap.Mem B)
  (h h' : Heap.heap) (b : B) :
  Heap.bind m k h = Some (b, h') ->
  exists a h1, m h = Some (a, h1) /\ k a h1 = Some (b, h').
Proof.
  unfold Heap.bind. destruct (m h) as [[a h1] |]; [| discriminate].
  intros E. exists a, h1. split; [reflexivity | exact E].
Qed.

(** Takes a successful run apart, one memory access at a time. *)
Ltac run_inv :=
  repeat match goal with
         | H : Heap.bind _ _ _ = Some _ |- _ =>
             apply bind_inv in H; destruct H as (? & ? & ? & H)
         | H : Heap.load _ _ = Some _ |- _ =>
             apply load_inv in H; destruct H as [? ->]
         | H : Heap.ret _ _ = Some _ |- _ =>
             unfold Heap.ret in H; injection H as <- <-
         | H : Heap.stop _ = Some _ |- _ => discriminate H
         end.

Lemma heap_searchNode_frame (fuel : nat) (root : Heap.ptr) (k : string)
  (h h' : Heap.heap) (q : Heap.ptr) :
  Heap.searchNode fuel root k h = Some (q, h') -> h' = h.
Proof.
  revert root. induction fuel as [| fuel IH]; intros root H; simpl in H.
  - discriminate.
  - destruct root as [p |]; run_inv; [| reflexivity].
    match goal with
    | H1 : (if ?b then _ else _) _ = Some _ |- _ => destruct b
    end; run_inv; [reflexivity |].
    match goal with
    | H1 : (if ?b then _ else _) _ = Some _ |- _ => destruct b
    end; eapply IH; eassumption.
Qed.

Lemma heap_findMin_frame (fuel : nat) (node : Heap.ptr)
  (h h' : Heap.heap) (q : Heap.ptr) :
  Heap.findMin fuel node h = Some (q, h') -> h' = h.
Proof.
  revert node. induction fuel as [| fuel IH]; intros node H; simpl in H.
  - discriminate.
  - destruct node as [p |]; run_inv; [| reflexivity].
    match goal with
    | H1 : match Heap.left ?c with Some _ => _ | None => _ end _ = Some _
      |- _ => destruct (Heap.left c)
    end; run_inv; [| reflexivity].
    eapply IH; eassumption.
Qed.

Lemma heap_print_frame (fuel : nat) (root : Heap.ptr) (ft : NodeType)
  (ecf : Z) (h h' : Heap.heap) (out : list string) :
  Heap.inorderTraversalPrint fuel root ft ecf h = Some (out, h') -> h' = h.
Proof.
  revert root h h' out.
  induction fuel as [| fuel IH]; intros root h h' out H; simpl in H.
  - discriminate.
  - destruct root as [p |]; run_inv; [| reflexivity].
    match goal with
    | H1 : Heap.inorderTraversalPrint _ (Heap.left _) _ _ _ = _ |- _ =>
        apply IH in H1; subst
    end.
    run_inv.
    match goal with
    | H1 : Heap.inorderTraversalPrint _ (Heap.right _) _ _ _ = _ |- _ =>
        apply IH in H1; subst
    end.
    reflexivity.
Qed.

Lemma heap_collect_frame (fuel : nat) (root : Heap.ptr) (c : Z)
  (b b' : KeyBuffer) (h h' : Heap.heap) :
  Heap.collectTicketKeysForEvent fuel root c b h = Some (b', h') -> h' = h.
Proof.
  revert root b b' h h'.
  induction fuel as [| fuel IH]; intros root b b' h h' H; simpl in H.
  - discriminate.
  - destruct root as [p |]; run_inv; [| reflexivity].
    match goal with
    | H1 : Heap.collectTicketKeysForEvent _ (Heap.left _) _ _ _ = _ |- _ =>
        apply IH in H1; subst
    end.
    run_inv. eapply IH; eassumption.
Qed.

Lemma heap_searchNode_run (h : Heap.heap) (root : Heap.ptr) (t : TreeNode)
  (k : string) :
  Heap.tree_at h root t ->
  forall fuel, (height t < fuel)%nat ->
  exists q, Heap.searchNode fuel root k h = Some (q, h)
            /\ Heap.tree_at h q (searchNode t k).
Proof.
  induction 1 as [| p c l r Hp Hl IHl Hr IHr]; intros fuel Hf;
    (destruct fuel as [| fuel]; [lia |]); simpl in Hf |- *.
  - exists None. split; [reflexivity | constructor].
  - unfold Heap.bind, Heap.load. rewrite Hp.
    destruct (strcmp (Heap.key c) k =? 0).
    + exists (Some p). split; [reflexivity |]. constructor; assumption.
    + destruct (strcmp k (Heap.key c) <? 0); [apply IHl | apply IHr]; lia.
Qed.

Lemma heap_findMin_run (h : Heap.heap) (node : Heap.ptr) (t : TreeNode) :
  Heap.tree_at h node t ->
  forall fuel, (height t < fuel)%nat ->
  exists q, Heap.findMin fuel node h = Some (q, h)
            /\ Heap.tree_at h q (findMin t).
Proof.
  induction 1 as [| p c l r Hp Hl IHl Hr IHr]; intros fuel Hf;
    (destruct fuel as [| fuel]; [lia |]); simpl in Hf.
  - exists None. split; [reflexivity | constructor].
  - cbn [Heap.findMin findMin]. unfold Heap.bind, Heap.load. rewrite Hp.
    inversion Hl as [E1 E2 | p' c' l' r' Hp' Hl' Hr' E1 E2].
    + subst l. exists (Some p). split; [reflexivity |].
      constructor; [exact Hp | exact Hl | exact Hr].
    + subst l. destruct (IHl fuel) as (q & Hq & Tq); [simpl in Hf |- *; lia |].
      exists q. split; [| exact Tq].
      rewrite <- Hq. rewrite <- E1. reflexivity.
Qed.

Lemma heap_print_run (h : Heap.heap) (root : Heap.ptr) (t : TreeNode)
  (ft : NodeType) (ecf : Z) :
  Heap.tree_at h root t ->
  forall fuel, (height t < fuel)%nat ->
  Heap.inorderTraversalPrint fuel root ft ecf h
  = Some (inorderTraversalPrint t ft ecf, h).
Proof.
  induction 1 as [| p c l r Hp Hl IHl Hr IHr]; intros fuel Hf;
    (destruct fuel as [| fuel]; [lia |]); simpl in Hf |- *.
  - reflexivity.
  - unfold Heap.bind, Heap.load. rewrite Hp.
    rewrite IHl by lia. rewrite Hp. rewrite IHr by lia. reflexivity.
Qed.

Lemma heap_collect_run (h : Heap.heap) (root : Heap.ptr) (t : TreeNode)
  (c : Z) :
  Heap.tree_at h root t ->
  forall fuel (b : KeyBuffer), (height t < fuel)%nat ->
  Heap.collectTicketKeysForEvent fuel root c b h
  = Some (collectTicketKeysForEvent t c b, h).
Proof.
  induction 1 as [| p n l r Hp Hl IHl Hr IHr]; intros fuel b Hf;
    (destruct fuel as [| fuel]; [lia |]); simpl in Hf |- *.
  - reflexivity.
  - unfold Heap.bind, Heap.load. rewrite Hp.
    rewrite IHl by lia. rewrite Hp. apply IHr. lia.
Qed.

(** * Main theorems *)

Lemma BST_apply_ops (ops : list index_op) (t : TreeNode) :
  BST t -> BST (apply_ops ops t).
Proof.
  revert t. induction ops as [| o ops IH]; intros t B; [exact B |].
  apply IH. destruct o; [apply BST_insert | apply BST_delete]; exact B.
Qed.

(** C2. Whatever inserts and deletes are applied to the empty tree, the
    result satisfies the search-tree property at every node, so its in-order
    traversal lists the keys in strictly ascending order, without
    duplicates. *)
Theorem bst_invariant_all_sequences (ops : list index_op) :
  BST (apply_ops ops NULL)
  /\ StronglySorted key_lt (tree_keys (apply_ops ops NULL))
  /\ List.NoDup (tree_keys (apply_ops ops NULL)).
Proof.
  assert (B : BST (apply_ops ops NULL)) by (apply BST_apply_ops; exact I).
  split; [exact B |].
  apply BST_sorted in B. split; [exact B | apply sorted_NoDup; exact B].
Qed.

Lemma deleteNode_graft (t : TreeNode) (k : string) (k' : string)
  (d : NodeData) (l r : TreeNode) :
  searchNode t k = Node k' d l r ->
  deleteNode t k = graft t k (deleteNode (Node k' d l r) k).
Proof.
  induction t as [| rk rd tl IHl tr IHr]; [discriminate |].
  cbn [searchNode deleteNode graft]. order_keys k rk; intros H.
  - rewrite (IHl H). reflexivity.
  - injection H as <- <- <- <-. cbn [deleteNode]. rewrite strcmp_refl.
    reflexivity.
  - rewrite (IHr H). reflexivity.
Qed.

(** C3. When the node matching the deleted key has two children, the node
    takes over the key and payload of the minimum of its right subtree, that
    key is deleted from the right subtree, and the in-order sequence of the
    whole tree is the old one with the record of the deleted key taken out:
    nothing else is lost and no key occurs twice. *)
Theorem deleteNode_two_children (t : TreeNode) (k : string) (d : NodeData)
  (l r : TreeNode) :
  BST t ->
  searchNode t k = Node k d l r ->
  l <> NULL ->
  r <> NULL ->
  exists tk td tl tr,
    findMin r = Node tk td tl tr
    /\ deleteNode t k = graft t k (Node tk td l (deleteNode r tk))
    /\ (exists l1 l2,
           inorder t = l1 ++ (k, d) :: l2
           /\ inorder (deleteNode t k) = l1 ++ l2)
    /\ List.NoDup (tree_keys (deleteNode t k)).
Proof.
  intros B Hs Hl Hr.
  destruct (findMin_inorder r Hr) as (tk & td & tl & tr & rest & Hm & _).
  exists tk, td, tl, tr. split; [exact Hm |]. split; [| split].
  - rewrite (deleteNode_graft t k k d l r Hs). f_equal.
    cbn [deleteNode]. rewrite strcmp_refl. cbn [Z.ltb Z.compare].
    destruct l as [| lk ld ll lr]; [contradiction |].
    destruct r as [| rk rd rl rr]; [contradiction |].
    rewrite Hm. reflexivity.
  - assert (Hf : List.find (has_key k) (inorder t) = Some (k, d)).
    { rewrite <- (found_searchNode t k B), Hs. reflexivity. }
    destruct (sorted_split k (k, d) (inorder t)) as (l1 & l2 & E1 & E2 & _).
    + apply BST_sorted. exact B.
    + exact Hf.
    + exists l1, l2. split; [exact E1 |].
      rewrite inorder_deleteNode by exact B. exact E2.
  - apply sorted_NoDup, BST_sorted, BST_delete. exact B.
Qed.

(** C4. Deleting a key from a search tree makes a search for it return
    nothing and leaves the result of every other search as it was; deleting
    a key the tree does not hold returns the tree unchanged. *)
Theorem deleteNode_complete (t : TreeNode) (k : string) :
  BST t ->
  searchNode (deleteNode t k) k = NULL
  /\ (forall k', k' <> k ->
        found (searchNode (deleteNode t k) k') = found (searchNode t k'))
  /\ (~ In k (tree_keys t) -> deleteNode t k = t).
Proof.
  intros B. split; [| split].
  - apply found_None. rewrite found_deleteNode by exact B.
    rewrite String.eqb_refl. reflexivity.
  - intros k' Hne. rewrite found_deleteNode by exact B.
    apply String.eqb_neq in Hne. rewrite Hne. reflexivity.
  - intros Hin. apply deleteNode_absent. apply searchNode_absent; assumption.
Qed.

Lemma one_node_per_key (t : TreeNode) (k : string) :
  BST t ->
  searchNode t k <> NULL ->
  length (List.filter (has_key k) (inorder t)) = 1%nat.
Proof.
  intros B Hs.
  destruct (found (searchNode t k)) as [p |] eqn:E.
  - rewrite (found_searchNode t k B) in E.
    destruct (sorted_split k p (inorder t)) as (l1 & l2 & _ & _ & E3).
    + apply BST_sorted. exact B.
    + exact E.
    + rewrite E3. reflexivity.
  - apply found_None in E. contradiction.
Qed.

(** C5. A second insert of a key changes nothing: the tree is the one the
    first insert left, it has exactly one node with that key, and the node
    holds what it held after the first insert, which is the payload of the
    first insert when the key was new. *)
Theorem insertNode_first_writer_wins (t : TreeNode) (k : string)
  (d1 d2 : NodeData) :
  insertNode (insertNode t k d1) k d2 = insertNode t k d1
  /\ (BST t ->
      length (List.filter (has_key k)
                (inorder (insertNode (insertNode t k d1) k d2))) = 1%nat)
  /\ found (searchNode (insertNode (insertNode t k d1) k d2) k)
     = found (searchNode (insertNode t k d1) k)
  /\ (searchNode t k = NULL ->
      found (searchNode (insertNode (insertNode t k d1) k d2) k)
      = Some (k, d1)).
Proof.
  rewrite insertNode_twice. split; [reflexivity |]. split; [| split].
  - intros B. apply one_node_per_key.
    + apply BST_insert. exact B.
    + apply searchNode_insert_same.
  - reflexivity.
  - intros H. rewrite searchNode_insert_fresh by exact H. reflexivity.
Qed.

(** C6. After a key that was not in the tree is inserted with a record, an
    event or a ticket, a search for the key returns the node holding that
    key and that record. *)
Theorem insert_search_roundtrip (t : TreeNode) (k : string) (d : NodeData) :
  ~ In k (tree_keys t) ->
  found (searchNode (insertNode t k d) k) = Some (k, d).
Proof.
  intros H. apply searchNode_not_In in H.
  rewrite searchNode_insert_fresh by exact H. reflexivity.
Qed.

(** C1. Removing an event the tree holds first collects the key of every
    ticket of that event, then deletes the collected keys one by one, then
    deletes the event key.  Afterwards neither the event key nor the key of
    any of its tickets is found, and every other record of the tree is found
    as before. *)
Theorem removeEvent_cascade (sscanf_d : string -> option Z) (t : TreeNode)
  (w : World) :
  BST t ->
  0 <= fst (getIntegerInput sscanf_d w) ->
  searchNode t (event_key (fst (getIntegerInput sscanf_d w))) <> NULL ->
  let c := fst (getIntegerInput sscanf_d w) in
  let t' := fst (removeEvent sscanf_d t w) in
  keys (collectTicketKeysForEvent t c empty_buffer) = ticket_keys_of t c
  /\ t' = deleteNode (fold_left deleteNode (ticket_keys_of t c) t)
                     (event_key c)
  /\ searchNode t' (event_key c) = NULL
  /\ (forall k tk,
        In (k, ticketData tk) (inorder t) -> eventCode tk = c ->
        searchNode t' k = NULL)
  /\ (forall k d,
        In (k, d) (inorder t) -> k <> event_key c ->
        ticket_of_event c d = false ->
        found (searchNode t' k) = Some (k, d))
  /\ BST t'.
Proof.
  intros B Hc Hs c t'. subst t'.
  rewrite (removeEvent_found sscanf_d t w Hc Hs). cbn [fst]. fold c.
  assert (Bk : BST (fold_left deleteNode (ticket_keys_of t c) t))
    by (apply BST_delete_all; exact B).
  split; [| split; [| split; [| split; [| split]]]].
  - destruct (collect_keys t c empty_buffer) as [K _]. exact K.
  - reflexivity.
  - apply found_None. rewrite found_deleteNode by exact Bk.
    rewrite String.eqb_refl. reflexivity.
  - intros k tk Hin Hcode. apply found_None.
    rewrite found_deleteNode by exact Bk.
    destruct (k =? event_key c)%string; [reflexivity |].
    apply found_delete_all_in; [exact B |].
    apply ticket_keys_of_In. exists (ticketData tk).
    split; [exact Hin |]. simpl. apply Z.eqb_eq. exact Hcode.
  - intros k d Hin Hne Hd. rewrite found_deleteNode by exact Bk.
    apply String.eqb_neq in Hne. rewrite Hne.
    rewrite found_delete_all_out; [apply found_In; assumption | exact B |].
    intros Hk. apply ticket_keys_of_In in Hk. destruct Hk as (d' & Hin' & Hd').
    pose proof (found_In t k d B Hin) as F.
    pose proof (found_In t k d' B Hin') as F'.
    rewrite F in F'. injection F' as <-. congruence.
  - apply BST_delete. exact Bk.
Qed.

(** C7, as the code has it.  When no event key for the entered code is in
    the tree, adding a ticket stops before the seat is read and returns the
    tree as it was: a code that is not negative is looked up once and the
    unknown-event message is written, a negative code is turned down as
    invalid before any lookup. *)
Theorem addTicket_unknown_event (sscanf_d : string -> option Z)
  (nt : Ticket) (t : TreeNode) (w : World) :
  searchNode t (event_key (fst (getIntegerInput sscanf_d w))) = NULL ->
  let c := fst (getIntegerInput sscanf_d w) in
  addTicket sscanf_d nt t w
  = (t, {| stdin := stdin (snd (getIntegerInput sscanf_d w));
           stdout := stdout w
                     ++ [ nl +:+ "--- Issue Ticket ---" +:+ nl;
                          "Enter event code: ";
                          if c <? 0 then "(!) Invalid code." +:+ nl
                          else "(!) Error: No event exists with code "
                               +:+ fmt_d c +:+ "." +:+ nl ];
           searched := searched w
                       ++ (if c <? 0 then [] else [event_key c]) |}).
Proof.
  intros Hs c. destruct (Z.ltb_spec c 0) as [Hneg | Hpos].
  - rewrite (addTicket_negative sscanf_d nt t w Hneg), app_nil_r. reflexivity.
  - rewrite (addTicket_no_event sscanf_d nt t w Hpos Hs). reflexivity.
Qed.

(** C10. A negative code, such as the -1 that stands for a line that is no
    number, makes adding, finding and removing an event and adding a ticket
    stop at once: the tree is returned as it is and no search is made.
    Hence, however long the program runs on whatever input, no key built
    from a negative code is ever in the tree or passed to a search. *)
Theorem negative_code_rejected (sscanf_d : string -> option Z) (w : World)
  (t : TreeNode) (e : Event) (nt : Ticket) (s : string) :
  fst (getIntegerInput sscanf_d w) < 0 ->
  let rejected := fun banner prompt =>
    {| stdin := stdin (snd (getIntegerInput sscanf_d w));
       stdout := stdout w ++ [banner; prompt; "(!) Invalid code." +:+ nl];
       searched := searched w |} in
  addEvent sscanf_d e t w
  = (t, rejected (nl +:+ "--- Add New Event ---" +:+ nl)
                 "Enter event code (integer): ")
  /\ findEvent sscanf_d t w
     = (tt, rejected (nl +:+ "--- Search for Event ---" +:+ nl)
                     "Enter event code to search for: ")
  /\ removeEvent sscanf_d t w
     = (t, rejected (nl +:+ "--- Delete Event ---" +:+ nl)
                    "Enter event code to delete: ")
  /\ addTicket sscanf_d nt t w
     = (t, rejected (nl +:+ "--- Issue Ticket ---" +:+ nl)
                    "Enter event code: ")
  /\ (forall (fuel : nat) (input : string) (c : Z) (k : string),
        c < 0 -> built_from c k ->
        ~ In k (tree_keys
                  (snd (fst (main_loop sscanf_d e nt s fuel NULL
                               (console input)))))
        /\ ~ In k (searched
                     (snd (main_loop sscanf_d e nt s fuel NULL
                             (console input))))).
Proof.
  intros H rejected. subst rejected.
  split; [apply addEvent_negative, H |].
  split; [apply findEvent_negative, H |].
  split; [apply removeEvent_negative, H |].
  split; [apply addTicket_negative, H |].
  intros fuel input c k Hc Hk.
  destruct (program_trees sscanf_d e nt s fuel input) as (_ & Ht & Hw).
  apply all_keys_Forall in Ht. rewrite List.Forall_forall in Ht, Hw.
  split; intros Hin.
  - exact (clean_not_negative k c (Ht k Hin) Hc Hk).
  - exact (clean_not_negative k c (Hw k Hin) Hc Hk).
Qed.

(** C8.  The validator takes the seat "a1x": [atoi] stops at the first
    character that is no digit and ignores what follows.  The format of
    the specification, a section letter followed by a number from 1 to 500,
    does not include it. *)
Theorem validateSeat_trailing_characters :
  validateSeat "a1x" = 1 /\ seat_format_spec "a1x" = false.
Proof. split; reflexivity. Qed.

(** C9. Searching, finding the minimum, printing in order and collecting
    the ticket keys of an event run to their end on every tree in memory
    and leave the memory as it was: no key, tag, payload or child pointer of
    any node is changed. *)
Theorem read_only_operations_keep_tree (h : Heap.heap) (root : Heap.ptr)
  (t : TreeNode) (k : string) (filterType : NodeType) (eventCodeFilter : Z)
  (evCode : Z) (b : KeyBuffer) :
  Heap.tree_at h root t ->
  (exists q, Heap.searchNode (S (height t)) root k h = Some (q, h)
             /\ Heap.tree_at h q (searchNode t k))
  /\ (exists q, Heap.findMin (S (height t)) root h = Some (q, h)
                /\ Heap.tree_at h q (findMin t))
  /\ Heap.inorderTraversalPrint (S (height t)) root filterType
       eventCodeFilter h
     = Some (inorderTraversalPrint t filterType eventCodeFilter, h)
  /\ Heap.collectTicketKeysForEvent (S (height t)) root evCode b h
     = Some (collectTicketKeysForEvent t evCode b, h)
  /\ (forall fuel r h',
         (Heap.searchNode fuel root k h = Some (r, h') -> h' = h)
         /\ (Heap.findMin fuel root h = Some (r, h') -> h' = h))
  /\ (forall fuel out h',
         Heap.inorderTraversalPrint fuel root filterType eventCodeFilter h
         = Some (out, h') -> h' = h)
  /\ (forall fuel b' h',
         Heap.collectTicketKeysForEvent fuel root evCode b h = Some (b', h')
         -> h' = h).
Proof.
  intros T.
  split; [apply heap_searchNode_run; [exact T | lia] |].
  split; [apply heap_findMin_run; [exact T | lia] |].
  split; [apply heap_print_run; [exact T | lia] |].
  split; [apply heap_collect_run; [exact T | lia] |].
  split; [| split].
  - intros fuel r h'. split.
    + apply heap_searchNode_frame.
    + apply heap_findMin_frame.
  - intros fuel out h'. apply heap_print_frame.
  - intros fuel b' h'. apply heap_collect_frame.
Qed.

(** * The theorems at sample inputs *)

(** A session: an event is added, a ticket is issued, the same seat is
    refused, the event is removed, and the program ends with an empty
    tree. *)
Example session :
  let input :=
    fold_right (fun line rest => line +:+ nl +:+ rest) EmptyString
      [ "1"; "1"; "101"; "Yoga"; "1/1/2025"; "9:00"; "5";
        "2"; "1"; "101"; "c14"; "123"; "Ann"; "Lee";
        "1"; "101"; "c14"; "4";
        "1"; "3"; "101"; "5"; "3" ] in
  let run := main scan_decimal yoga seat_a7 EmptyString 30 (console input) in
  fst run = (true, NULL)
  /\ stdin (snd run) = EmptyString
  /\ searched (snd run)
     = ["E_101"; "E_101"; "T_101_c14"; "E_101"; "T_101_c14"; "E_101"]
  /\ In ("(!) Error: Seat c14 is already booked for this event." +:+ nl)
        (stdout (snd run))
  /\ In ("-> Deleting 1 tickets associated with the event..." +:+ nl)
        (stdout (snd run)).
Proof. vm_compute. repeat split; tauto. Qed.

Lemma BST_sample_tree : BST sample_tree.
Proof. vm_compute. repeat split. Qed.

Lemma tree_at_sample :
  Heap.tree_at sample_heap (Some 1%positive) sample_heap_tree.
Proof.
  apply (Heap.at_node sample_heap 1%positive
           (Heap.mkCell "E_101" (eventData yoga) None (Some 2%positive))).
  - reflexivity.
  - constructor.
  - apply (Heap.at_node sample_heap 2%positive
             (Heap.mkCell "T_101_c149" (ticketData seat_c149) None None)).
    + reflexivity.
    + constructor.
    + constructor.
Qed.

Lemma removeEvent_cascade_witness :
  0 <= fst (getIntegerInput scan_decimal (console ("101" +:+ nl)))
  /\ searchNode (fst (removeEvent scan_decimal sample_tree
                        (console ("101" +:+ nl)))) "E_101" = NULL
  /\ searchNode (fst (removeEvent scan_decimal sample_tree
                        (console ("101" +:+ nl)))) "T_101_c149" = NULL
  /\ found (searchNode (fst (removeEvent scan_decimal sample_tree
                               (console ("101" +:+ nl)))) "T_102_b2")
     = Some ("T_102_b2", ticketData seat_b2).
Proof.
  assert (H0 : 0 <= fst (getIntegerInput scan_decimal (console ("101" +:+ nl))))
    by (vm_compute; discriminate).
  assert (H1 : searchNode sample_tree
                 (event_key (fst (getIntegerInput scan_decimal
                                    (console ("101" +:+ nl))))) <> NULL)
    by (vm_compute; discriminate).
  destruct (removeEvent_cascade scan_decimal sample_tree
              (console ("101" +:+ nl)) BST_sample_tree H0 H1)
    as (_ & _ & He & Ht & Ho & _).
  split; [exact H0 |]. split; [exact He |]. split.
  - apply (Ht "T_101_c149" seat_c149); [vm_compute; tauto | reflexivity].
  - apply (Ho "T_102_b2" (ticketData seat_b2));
      [vm_compute; tauto | vm_compute; discriminate | reflexivity].
Defined.

Lemma deleteNode_two_children_witness :
  exists tk td tl tr,
    findMin (Node "T_102_b2" (ticketData seat_b2) NULL NULL)
    = Node tk td tl tr
    /\ deleteNode sample_tree "T_101_c149"
       = graft sample_tree "T_101_c149"
           (Node tk td
              (Node "E_102" (eventData pilates) NULL
                 (Node "T_101_a7" (ticketData seat_a7) NULL NULL))
              (deleteNode (Node "T_102_b2" (ticketData seat_b2) NULL NULL) tk))
    /\ (exists l1 l2,
           inorder sample_tree
           = l1 ++ ("T_101_c149", ticketData seat_c149) :: l2
           /\ inorder (deleteNode sample_tree "T_101_c149") = l1 ++ l2)
    /\ List.NoDup (tree_keys (deleteNode sample_tree "T_101_c149")).
Proof.
  apply (deleteNode_two_children sample_tree "T_101_c149"
           (ticketData seat_c149)
           (Node "E_102" (eventData pilates) NULL
              (Node "T_101_a7" (ticketData seat_a7) NULL NULL))
           (Node "T_102_b2" (ticketData seat_b2) NULL NULL)).
  - exact BST_sample_tree.
  - reflexivity.
  - discriminate.
  - discriminate.
Defined.

Lemma deleteNode_complete_witness :
  BST sample_tree
  /\ searchNode (deleteNode sample_tree "E_102") "E_102" = NULL
  /\ (forall k', k' <> "E_102" ->
        found (searchNode (deleteNode sample_tree "E_102") k')
        = found (searchNode sample_tree k'))
  /\ (~ In "E_102" (tree_keys sample_tree) ->
      deleteNode sample_tree "E_102" = sample_tree).
Proof.
  split; [exact BST_sample_tree |].
  apply (deleteNode_complete sample_tree "E_102"). exact BST_sample_tree.
Defined.

Lemma insertNode_first_writer_wins_witness :
  BST sample_tree
  /\ searchNode sample_tree "E_103" = NULL
  /\ insertNode (insertNode sample_tree "E_103" (eventData yoga)) "E_103"
       (eventData pilates)
     = insertNode sample_tree "E_103" (eventData yoga)
  /\ length (List.filter (has_key "E_103")
               (inorder (insertNode
                           (insertNode sample_tree "E_103" (eventData yoga))
                           "E_103" (eventData pilates)))) = 1%nat
  /\ found (searchNode
              (insertNode (insertNode sample_tree "E_103" (eventData yoga))
                 "E_103" (eventData pilates)) "E_103")
     = Some ("E_103", eventData yoga).
Proof.
  destruct (insertNode_first_writer_wins sample_tree "E_103"
              (eventData yoga) (eventData pilates)) as (H1 & H2 & _ & H4).
  split; [exact BST_sample_tree |]. split; [reflexivity |].
  split; [exact H1 |]. split; [exact (H2 BST_sample_tree) |].
  apply H4. reflexivity.
Defined.

Lemma insert_search_roundtrip_witness :
  ~ In "T_102_h500" (tree_keys sample_tree)
  /\ found (searchNode
              (insertNode sample_tree "T_102_h500" (ticketData seat_h500))
              "T_102_h500")
     = Some ("T_102_h500", ticketData seat_h500).
Proof.
  assert (H : ~ In "T_102_h500" (tree_keys sample_tree)).
  { vm_compute. intros H.
    repeat (destruct H as [H | H]; [discriminate H |]). exact H. }
  split; [exact H |].
  apply (insert_search_roundtrip sample_tree "T_102_h500"
           (ticketData seat_h500) H).
Defined.

Lemma addTicket_unknown_event_witness :
  searchNode sample_tree
    (event_key (fst (getIntegerInput scan_decimal (console ("7" +:+ nl)))))
  = NULL
  /\ addTicket scan_decimal seat_a7 sample_tree (console ("7" +:+ nl))
     = (sample_tree,
        {| stdin := "";
           stdout := [ nl +:+ "--- Issue Ticket ---" +:+ nl;
                       "Enter event code: ";
                       "(!) Error: No event exists with code 7." +:+ nl ];
           searched := ["E_7"] |}).
Proof.
  split; [reflexivity |].
  apply (addTicket_unknown_event scan_decimal seat_a7 sample_tree
           (console ("7" +:+ nl))).
  reflexivity.
Defined.

Lemma negative_code_rejected_witness :
  fst (getIntegerInput scan_decimal (console ("-4" +:+ nl))) < 0
  /\ removeEvent scan_decimal sample_tree (console ("-4" +:+ nl))
     = (sample_tree,
        {| stdin := "";
           stdout := [ nl +:+ "--- Delete Event ---" +:+ nl;
                       "Enter event code to delete: ";
                       "(!) Invalid code." +:+ nl ];
           searched := [] |}).
Proof.
  assert (H : fst (getIntegerInput scan_decimal (console ("-4" +:+ nl))) < 0)
    by reflexivity.
  split; [exact H |].
  destruct (negative_code_rejected scan_decimal (console ("-4" +:+ nl))
              sample_tree yoga seat_a7 EmptyString H) as (_ & _ & Hr & _).
  exact Hr.
Defined.

Lemma read_only_operations_keep_tree_witness :
  Heap.tree_at sample_heap (Some 1%positive) sample_heap_tree
  /\ Heap.inorderTraversalPrint 3 (Some 1%positive) TICKET_NODE 101
       sample_heap
     = Some (inorderTraversalPrint sample_heap_tree TICKET_NODE 101,
             sample_heap).
Proof.
  split; [exact tree_at_sample |].
  destruct (read_only_operations_keep_tree sample_heap (Some 1%positive)
              sample_heap_tree "E_101" TICKET_NODE 101 101 empty_buffer
              tree_at_sample) as (_ & _ & Hp & _).
  exact Hp.
Defined.

(** C7 as worded fails for a line that is no number: the code read is -1,
    the tree has no key for it, and the call ends with the invalid-code
    message, not with the unknown-event one. *)
Lemma addTicket_negative_code_counterexample :
  fst (getIntegerInput (fun _ => None) (console ("abc" +:+ nl))) = -1
  /\ searchNode sample_tree (event_key (-1)) = NULL
  /\ addTicket (fun _ => None) seat_a7 sample_tree (console ("abc" +:+ nl))
     = (sample_tree,
        {| stdin := "";
           stdout := [ nl +:+ "--- Issue Ticket ---" +:+ nl;
                       "Enter event code: ";
                       "(!) Invalid code." +:+ nl ];
           searched := [] |})
  /\ addTicket (fun _ => None) seat_a7 sample_tree (console ("abc" +:+ nl))
     <> (sample_tree,
         {| stdin := "";
            stdout := [ nl +:+ "--- Issue Ticket ---" +:+ nl;
                        "Enter event code: ";
                        "(!) Error: No event exists with code -1." +:+ nl ];
            searched := ["E_-1"] |}).
Proof.
  split; [reflexivity |]. split; [reflexivity |].
  split; [reflexivity |]. vm_compute. discriminate.
Defined.


(** * Further properties of the index *)



Lemma inorder_insertNode_fresh (t : TreeNode) (k : string)
  (d : NodeData) :
  searchNode t k = NULL ->
  exists l1 l2,
    inorder t = l1 ++ l2
    /\ inorder (insertNode t k d) = l1 ++ (k, d) :: l2.
Proof.
  induction t as [| rk rd l IHl r IHr]; cbn [searchNode insertNode].
  - intros _. exists [], []. split; reflexivity.
  - order_keys k rk; intros H.
    + destruct (IHl H) as (l1 & l2 & E1 & E2).
      exists l1, (l2 ++ (rk, rd) :: inorder r). cbn [inorder].
      rewrite E1, E2, <- !app_assoc. split; reflexivity.
    + discriminate.
    + destruct (IHr H) as (l1 & l2 & E1 & E2).
      exists (inorder l ++ (rk, rd) :: l1), l2. cbn [inorder].
      rewrite E1, E2, <- !app_assoc. split; reflexivity.
Qed.

(** X2. Inserting a key the search does not find adds one record to the in-order
    sequence and leaves the others where they were. *)
Theorem insertNode_adds_one_record (t : TreeNode) (k : string)
  (d : NodeData) :
  searchNode t k = NULL ->
  exists l1 l2,
    inorder t = l1 ++ l2
    /\ inorder (insertNode t k d) = l1 ++ (k, d) :: l2.
Proof. exact (inorder_insertNode_fresh t k d). Qed.

(** X4. Deleting a key right after it was inserted as a new key gives back the
    very tree there was before, shape included. *)
Theorem deleteNode_undoes_insertNode (t : TreeNode) (k : string)
  (d : NodeData) :
  searchNode t k = NULL ->
  deleteNode (insertNode t k d) k = t.
Proof.
  induction t as [| rk rd l IHl r IHr]; cbn [searchNode insertNode].
  - intros _. unfold createNode. cbn [deleteNode]. rewrite strcmp_refl.
    reflexivity.
  - order_keys k rk; intros H.
    + cbn [deleteNode]. rewrite (strcmp_lt k rk Hlt). cbn [Z.ltb Z.compare].
      rewrite (IHl H). reflexivity.
    + discriminate.
    + cbn [deleteNode]. rewrite (strcmp_gt k rk Hgt). cbn [Z.ltb Z.compare].
      rewrite (IHr H). reflexivity.
Qed.

Lemma filter_swap {A : Type} (f g : A -> bool) (l : list A) :
  List.filter f (List.filter g l) = List.filter g (List.filter f l).
Proof.
  induction l as [| a l IH]; simpl; [reflexivity |].
  destruct (f a) eqn:Ef, (g a) eqn:Eg; simpl; rewrite ?Ef, ?Eg, IH; reflexivity.
Qed.

(** X5. Two deletions leave the same records in whichever order they are made
    (the shape of the tree may differ). *)
Theorem deleteNode_order_irrelevant (t : TreeNode) (a b : string) :
  BST t ->
  inorder (deleteNode (deleteNode t a) b)
  = inorder (deleteNode (deleteNode t b) a).
Proof.
  intros B.
  rewrite (inorder_deleteNode _ (BST_delete t a B)).
  rewrite (inorder_deleteNode _ (BST_delete t b B)).
  rewrite !(inorder_deleteNode t B). apply filter_swap.
Qed.

(** X6. [findMin] returns the node with the least key of a search tree, and
    that node has no left child. *)
Theorem findMin_least (t : TreeNode) (k : string) (d : NodeData)
  (l r : TreeNode) :
  BST t ->
  findMin t = Node k d l r ->
  l = NULL
  /\ In (k, d) (inorder t)
  /\ forall k', In k' (tree_keys t) -> k' = k \/ key_lt k k'.
Proof.
  intros B Hm.
  assert (Hne : t <> NULL) by (intros ->; discriminate).
  destruct (findMin_inorder t Hne) as (k0 & d0 & l0 & r0 & rest & Hm' & Hi).
  rewrite Hm in Hm'. injection Hm' as <- <- <- <-.
  split; [| split].
  - clear B Hi Hne. revert Hm.
    induction t as [| rk rd tl IHl tr _]; [discriminate |].
    destruct tl as [| lk ld ll lr].
    + simpl. intros E. injection E as _ _ <- _. reflexivity.
    + intros E. apply IHl. exact E.
  - rewrite Hi. left. reflexivity.
  - apply BST_sorted in B. unfold tree_keys in *. rewrite Hi in *.
    simpl in *. apply StronglySorted_inv in B. destruct B as [_ Hall].
    rewrite List.Forall_forall in Hall.
    intros k' [E | Hin]; [left; symmetry; exact E | right; apply Hall, Hin].
Qed.

(** X7. The number of nodes: an insert adds one node when the key is new and
    none otherwise; in a search tree a delete takes one node away when the
    key is there and none otherwise. *)
Theorem node_count_insert_delete (t : TreeNode) (k : string) (d : NodeData) :
  length (inorder (insertNode t k d))
  = (if is_null (searchNode t k) then S (length (inorder t))
     else length (inorder t))
  /\ (BST t ->
      length (inorder t)
      = (if is_null (searchNode t k)
         then length (inorder (deleteNode t k))
         else S (length (inorder (deleteNode t k))))).
Proof.
  split.
  - destruct (searchNode t k) as [| fk fd fl fr] eqn:E; cbn [is_null].
    + destruct (inorder_insertNode_fresh t k d E) as (l1 & l2 & E1 & E2).
      rewrite E1, E2, !length_app. simpl. lia.
    + rewrite insertNode_present; [reflexivity |]. rewrite E. discriminate.
  - intros B. destruct (searchNode t k) as [| fk fd fl fr] eqn:E; cbn [is_null].
    + rewrite deleteNode_absent by exact E. reflexivity.
    + assert (F : List.find (has_key k) (inorder t) = Some (fk, fd)).
      { rewrite <- (found_searchNode t k B), E. reflexivity. }
      destruct (sorted_split k (fk, fd) (inorder t)) as (l1 & l2 & E1 & E2 & _).
      * apply BST_sorted. exact B.
      * exact F.
      * rewrite inorder_deleteNode by exact B. rewrite E2, E1, !length_app.
        simpl. lia.
Qed.

Lemma print_node_listed (k : string) (d : NodeData) (ft : NodeType)
  (ecf : Z) :
  print_node d ft ecf
  = if listed ft ecf (k, d) then print_record (k, d) else [].
Proof.
  unfold print_node, listed, print_record. simpl.
  destruct d as [e | t], ft; simpl; try reflexivity.
Qed.

Lemma print_enumerates (t : TreeNode) (ft : NodeType)
  (ecf : Z) :
  inorderTraversalPrint t ft ecf
  = flat_map print_record (List.filter (listed ft ecf) (inorder t))
  /\ (BST t ->
      StronglySorted key_lt
        (map fst (List.filter (listed ft ecf) (inorder t)))).
Proof.
  split.
  - induction t as [| k d l IHl r IHr]; [reflexivity |].
    cbn [inorderTraversalPrint inorder].
    rewrite List.filter_app, flat_map_app. cbn [List.filter].
    rewrite IHl, IHr, (print_node_listed k d).
    destruct (listed ft ecf (k, d)); reflexivity.
  - intros B. apply BST_sorted in B. unfold tree_keys in B.
    induction (inorder t) as [| p l IH]; simpl; [constructor |].
    simpl in B. apply StronglySorted_inv in B. destruct B as [S Hp].
    destruct (listed ft ecf p); [| apply IH, S].
    simpl. constructor; [apply IH, S |].
    rewrite List.Forall_forall in Hp. apply List.Forall_forall.
    intros x Hx. apply Hp. apply in_map_iff in Hx.
    destruct Hx as (q & <- & Hq). apply List.filter_In in Hq.
    apply in_map. tauto.
Qed.

(** X8. An in-order enumeration prints the records that pass its filter, each
    once, and in a search tree in ascending order of their keys: the events
    for the event filter, and for the ticket filter the tickets of the given
    event (all tickets when the code given is -1). *)
Theorem inorderTraversalPrint_enumerates (t : TreeNode) (ft : NodeType)
  (ecf : Z) :
  inorderTraversalPrint t ft ecf
  = flat_map print_record (List.filter (listed ft ecf) (inorder t))
  /\ (BST t ->
      StronglySorted key_lt
        (map fst (List.filter (listed ft ecf) (inorder t)))).
Proof. exact (print_enumerates t ft ecf). Qed.

(** ** Keys *)

Lemma fmt_d_inj (c c' : Z) : fmt_d c = fmt_d c' -> c = c'.
Proof.
  unfold fmt_d. intros H. apply DecimalZ.to_int_inj.
  assert (N : forall z, Z.to_int z <> Decimal.Pos Decimal.Nil
                        /\ Z.to_int z <> Decimal.Neg Decimal.Nil).
  { intros [| p | p]; simpl; split; try discriminate;
      intros E; injection E as E; exact (DecimalPos.Unsigned.to_uint_nonnil p E). }
  assert (E : Some (Z.to_int c) = Some (Z.to_int c')).
  { rewrite <- (NilZero.isi (Z.to_int c)) by apply N.
    rewrite <- (NilZero.isi (Z.to_int c')) by apply N.
    rewrite H. reflexivity. }
  injection E as E. exact E.
Qed.

Lemma no_underscore_uint (d : Decimal.uint) :
  no_underscore (NilEmpty.string_of_uint d) = true.
Proof. induction d; simpl; auto. Qed.

Lemma no_underscore_fmt_d (c : Z) : no_underscore (fmt_d c) = true.
Proof.
  unfold fmt_d, NilZero.string_of_int, NilZero.string_of_uint.
  destruct (Z.to_int c) as [d | d]; destruct d; simpl;
    try reflexivity; apply no_underscore_uint.
Qed.

Lemma split_at_underscore (a a' s s' : string) :
  no_underscore a = true -> no_underscore a' = true ->
  a +:+ String "_" s = a' +:+ String "_" s' -> a = a' /\ s = s'.
Proof.
  revert a'. induction a as [| c a IH]; intros [| c' a'] Ha Ha' E; simpl in *.
  - injection E as ->. split; reflexivity.
  - injection E as <- _. apply andb_true_iff in Ha'. destruct Ha' as [H _].
    discriminate H.
  - injection E as -> _. apply andb_true_iff in Ha. destruct Ha as [H _].
    discriminate H.
  - injection E as -> E. apply andb_true_iff in Ha, Ha'.
    destruct (IH a') as [-> ->]; tauto.
Qed.

(** X9. Different events get different keys, different bookings (event code and
    seat) get different keys, and no event key is a ticket key. *)
Theorem keys_distinguish (c c' : Z) (s s' : string) :
  (event_key c = event_key c' -> c = c')
  /\ (ticket_key c s = ticket_key c' s' -> c = c' /\ s = s')
  /\ event_key c <> ticket_key c' s'.
Proof.
  unfold event_key, ticket_key. split; [| split].
  - intros E. simpl in E. injection E as E. apply fmt_d_inj, E.
  - intros E. simpl in E. injection E as E.
    change ("_" +:+ s) with (String "_" s) in E.
    change ("_" +:+ s') with (String "_" s') in E.
    destruct (split_at_underscore _ _ _ _ (no_underscore_fmt_d c)
                (no_underscore_fmt_d c') E) as [Ec Es].
    split; [apply fmt_d_inj, Ec | exact Es].
  - simpl. discriminate.
Qed.

(** ** Reading lines *)

Lemma has_newline_cons (c : ascii) (s : string) :
  has_newline (String c s) = is_newline c || has_newline s.
Proof. reflexivity. Qed.

Lemma has_newline_app (a b : string) :
  has_newline (a +:+ b) = has_newline a || has_newline b.
Proof.
  induction a as [| c a IH]; [reflexivity |].
  change (String c a +:+ b) with (String c (a +:+ b)).
  rewrite !has_newline_cons, IH, orb_assoc. reflexivity.
Qed.

Lemma length_append (a b : string) :
  String.length (a +:+ b) = (String.length a + String.length b)%nat.
Proof. induction a as [| c a IH]; simpl; [reflexivity | rewrite IH; reflexivity]. Qed.





Lemma cut_newline_line (s r : string) :
  has_newline s = false -> cut_newline (s +:+ nl +:+ r) = s.
Proof.
  induction s as [| c s IH]; [reflexivity |].
  rewrite has_newline_cons. intros H. apply orb_false_iff in H.
  destruct H as [Hc Hs].
  change (String c s +:+ nl +:+ r) with (String c (s +:+ nl +:+ r)).
  simpl. rewrite Hc. f_equal. apply IH, Hs.
Qed.


Section ReadingFacts.

Variable sscanf_d : string -> option Z.


(** At the end of the input no number is read: the result is -1 and
    nothing changes. *)
Lemma getIntegerInput_eof (w : World) :
  stdin w = EmptyString -> getIntegerInput sscanf_d w = (-1, w).
Proof.
  intros E. unfold getIntegerInput, bind, fgets. rewrite E. reflexivity.
Qed.

End ReadingFacts.





Section FieldWidth.

Variable sscanf_d : string -> option Z.


End FieldWidth.

(** * What the event and ticket functions do to the tree *)

Lemma post_ret {A : Type} (a : A) (Q : A -> Prop) : Q a -> post (ret a) Q.
Proof. intros H w. exact H. Qed.

Lemma post_bind {A B : Type} (m : IO A) (k : A -> IO B) (P : A -> Prop)
  (Q : B -> Prop) :
  post m P -> (forall a, P a -> post (k a) Q) -> post (bind m k) Q.
Proof.
  intros Hm Hk w. unfold bind. specialize (Hm w).
  destruct (m w) as [a w']. exact (Hk a Hm w').
Qed.

Lemma post_any {A : Type} (m : IO A) : post m (fun _ => True).
Proof. intros w. exact I. Qed.

Lemma post_search (t : TreeNode) (k : string) :
  post (search t k) (fun r => r = searchNode t k).
Proof. intros w. reflexivity. Qed.

(** One step through a function: a bind, a branch, or the final value. *)
Ltac post_step :=
  first
    [ eapply post_bind;
      [ first [ apply post_search | apply post_any ] | intros ? ? ]
    | match goal with
      | |- post (if ?b then _ else _) _ => destruct b eqn:?
      end
    | apply post_ret ].

Section Outcomes.

Variable sscanf_d : string -> option Z.

Lemma addEvent_changes (e : Event) (t : TreeNode) (w : World) :
  fst (addEvent sscanf_d e t w) = t
  \/ exists e',
       0 <= code e'
       /\ searchNode t (event_key (code e')) = NULL
       /\ fst (addEvent sscanf_d e t w)
          = insertNode t (event_key (code e')) (eventData e').
Proof.
  revert w.
  change (post (addEvent sscanf_d e t)
            (fun t' => t' = t
                       \/ exists e', 0 <= code e'
                            /\ searchNode t (event_key (code e')) = NULL
                            /\ t' = insertNode t (event_key (code e'))
                                      (eventData e'))).
  unfold addEvent. repeat post_step; try (left; reflexivity).
  cbv beta in *. subst. right.
  match goal with
  | |- context [eventData ?x] => exists x
  end.
  cbn [code]. split; [lia |]. split; [| reflexivity].
  apply is_null_true. apply negb_false_iff. assumption.
Qed.

(** X15. [addEvent] leaves the tree as it is or inserts one event, under the key
    of its code, which is not negative and was not in the tree. *)
Theorem addEvent_outcome (e : Event) (t : TreeNode) (w : World) :
  fst (addEvent sscanf_d e t w) = t
  \/ exists e',
       0 <= code e'
       /\ searchNode t (event_key (code e')) = NULL
       /\ fst (addEvent sscanf_d e t w)
          = insertNode t (event_key (code e')) (eventData e').
Proof. exact (addEvent_changes e t w). Qed.

Lemma addTicket_changes (nt : Ticket) (t : TreeNode) (w : World) :
  fst (addTicket sscanf_d nt t w) = t
  \/ exists tk,
       0 <= eventCode tk
       /\ searchNode t (event_key (eventCode tk)) <> NULL
       /\ validateSeat (seat tk) = 1
       /\ searchNode t (ticket_key (eventCode tk) (seat tk)) = NULL
       /\ fst (addTicket sscanf_d nt t w)
          = insertNode t (ticket_key (eventCode tk) (seat tk))
              (ticketData tk).
Proof.
  revert w.
  change (post (addTicket sscanf_d nt t)
            (fun t' => t' = t
                       \/ exists tk, 0 <= eventCode tk
                            /\ searchNode t (event_key (eventCode tk)) <> NULL
                            /\ validateSeat (seat tk) = 1
                            /\ searchNode t
                                 (ticket_key (eventCode tk) (seat tk)) = NULL
                            /\ t' = insertNode t
                                      (ticket_key (eventCode tk) (seat tk))
                                      (ticketData tk))).
  unfold addTicket. repeat post_step; try (left; reflexivity).
  cbv beta in *. subst. right.
  match goal with
  | |- context [ticketData ?x] => exists x
  end.
  cbn [eventCode seat]. split; [lia |].
  split; [apply is_null_false; assumption |].
  split.
  - match goal with
    | H : (validateSeat ?s =? 0) = false |- _ =>
        apply Z.eqb_neq in H; unfold validateSeat in H |- *;
        repeat match goal with
               | |- context [if ?b then _ else _] => destruct b
               end; try reflexivity; contradiction
    end.
  - split; [| reflexivity].
    apply is_null_true. apply negb_false_iff. assumption.
Qed.

(** X17. [addTicket] leaves the tree as it is or inserts one ticket, under the
    key of its event code and seat: the code is not negative, its event is
    in the tree, the validator accepts the seat, and the key was free. *)
Theorem addTicket_outcome (nt : Ticket) (t : TreeNode) (w : World) :
  fst (addTicket sscanf_d nt t w) = t
  \/ exists tk,
       0 <= eventCode tk
       /\ searchNode t (event_key (eventCode tk)) <> NULL
       /\ validateSeat (seat tk) = 1
       /\ searchNode t (ticket_key (eventCode tk) (seat tk)) = NULL
       /\ fst (addTicket sscanf_d nt t w)
          = insertNode t (ticket_key (eventCode tk) (seat tk))
              (ticketData tk).
Proof. exact (addTicket_changes nt t w). Qed.

Lemma removeEvent_changes (t : TreeNode) (w : World) :
  fst (removeEvent sscanf_d t w) = t
  \/ exists c,
       0 <= c
       /\ searchNode t (event_key c) <> NULL
       /\ fst (removeEvent sscanf_d t w)
          = deleteNode (fold_left deleteNode (ticket_keys_of t c) t)
              (event_key c).
Proof.
  revert w.
  change (post (removeEvent sscanf_d t)
            (fun t' => t' = t
                       \/ exists c, 0 <= c
                            /\ searchNode t (event_key c) <> NULL
                            /\ t' = deleteNode
                                      (fold_left deleteNode
                                         (ticket_keys_of t c) t)
                                      (event_key c))).
  unfold removeEvent. repeat post_step; try (left; reflexivity).
  cbv beta in *. subst. right.
  match goal with
  | H : (?c <? 0) = false |- _ => exists c
  end.
  split; [lia |]. split; [apply is_null_false; assumption |].
  change {| keys := []; count := 0; capacity := 10 |} with empty_buffer.
  rewrite delete_keys_collected. reflexivity.
Qed.

(** X20. [removeEvent] leaves the tree as it is or deletes the tickets of one
    event and then the event: its code is not negative and its key was in
    the tree. *)
Theorem removeEvent_outcome (t : TreeNode) (w : World) :
  fst (removeEvent sscanf_d t w) = t
  \/ exists c,
       0 <= c
       /\ searchNode t (event_key c) <> NULL
       /\ fst (removeEvent sscanf_d t w)
          = deleteNode (fold_left deleteNode (ticket_keys_of t c) t)
              (event_key c).
Proof. exact (removeEvent_changes t w). Qed.

End Outcomes.

(** * What the tree holds while the program runs *)

Section Reachability.

Variable sscanf_d : string -> option Z.
Variable local_event : Event.
Variable local_ticket : Ticket.
Variable local_seat : string.

Lemma addEvent_transition (e : Event) (t : TreeNode) (w : World) :
  transition t (fst (addEvent sscanf_d e t w)).
Proof.
  destruct (addEvent_changes sscanf_d e t w) as [-> | (e' & H1 & H2 & ->)];
    [apply same_tree | apply event_added; assumption].
Qed.

Lemma addTicket_transition (nt : Ticket) (t : TreeNode) (w : World) :
  transition t (fst (addTicket sscanf_d nt t w)).
Proof.
  destruct (addTicket_changes sscanf_d nt t w)
    as [-> | (tk & H1 & H2 & H3 & H4 & ->)];
    [apply same_tree | apply ticket_added; assumption].
Qed.

Lemma removeEvent_transition (t : TreeNode) (w : World) :
  transition t (fst (removeEvent sscanf_d t w)).
Proof.
  destruct (removeEvent_changes sscanf_d t w) as [-> | (c & H1 & H2 & ->)];
    [apply same_tree | apply event_removed; assumption].
Qed.

Lemma eventMenu_reachable (fuel : nat) (t : TreeNode) :
  reachable t ->
  post (eventMenu sscanf_d local_event fuel t)
    (fun r => reachable (snd r)).
Proof.
  revert t. induction fuel as [| fuel IH]; intros t R; cbn [eventMenu].
  - apply post_ret, R.
  - do 8 (eapply post_bind; [apply post_any | intros ? _]).
    repeat match goal with
           | |- post (if ?b then _ else _) _ => destruct b
           end.
    + intros w. unfold bind.
      pose proof (addEvent_transition local_event t w) as T.
      destruct (addEvent sscanf_d local_event t w) as [t' w'].
      apply IH. exact (reachable_step t t' R T).
    + eapply post_bind; [apply post_any | intros ? _]. apply IH, R.
    + intros w. unfold bind.
      pose proof (removeEvent_transition t w) as T.
      destruct (removeEvent sscanf_d t w) as [t' w'].
      apply IH. exact (reachable_step t t' R T).
    + eapply post_bind; [apply post_any | intros ? _]. apply IH, R.
    + apply post_ret, R.
    + eapply post_bind; [apply post_any | intros ? _]. apply IH, R.
Qed.

Lemma ticketMenu_reachable (fuel : nat) (t : TreeNode) :
  reachable t ->
  post (ticketMenu sscanf_d local_ticket local_seat fuel t)
    (fun r => reachable (snd r)).
Proof.
  revert t. induction fuel as [| fuel IH]; intros t R; cbn [ticketMenu].
  - apply post_ret, R.
  - do 7 (eapply post_bind; [apply post_any | intros ? _]).
    repeat match goal with
           | |- post (if ?b then _ else _) _ => destruct b
           end.
    + intros w. unfold bind.
      pose proof (addTicket_transition local_ticket t w) as T.
      destruct (addTicket sscanf_d local_ticket t w) as [t' w'].
      apply IH. exact (reachable_step t t' R T).
    + eapply post_bind; [apply post_any | intros ? _]. apply IH, R.
    + eapply post_bind; [apply post_any | intros ? _]. apply IH, R.
    + apply post_ret, R.
    + eapply post_bind; [apply post_any | intros ? _]. apply IH, R.
Qed.

Lemma main_loop_reachable (fuel : nat) (t : TreeNode) :
  reachable t ->
  post (main_loop sscanf_d local_event local_ticket local_seat fuel t)
    (fun r => reachable (snd r)).
Proof.
  revert t. induction fuel as [| fuel IH]; intros t R; cbn [main_loop].
  - apply post_ret, R.
  - do 6 (eapply post_bind; [apply post_any | intros ? _]).
    repeat match goal with
           | |- post (if ?b then _ else _) _ => destruct b
           end.
    + eapply post_bind; [apply eventMenu_reachable, R |].
      intros [fin t'] R'. simpl in R' |- *.
      destruct fin; [apply IH, R' | apply post_ret, R'].
    + eapply post_bind; [apply ticketMenu_reachable, R |].
      intros [fin t'] R'. simpl in R' |- *.
      destruct fin; [apply IH, R' | apply post_ret, R'].
    + eapply post_bind; [apply post_any | intros ? _].
      apply post_ret, reachable_empty.
    + eapply post_bind; [apply post_any | intros ? _]. apply IH, R.
Qed.

End Reachability.

Lemma In_insert_fresh (t : TreeNode) (k : string) (d : NodeData)
  (p : string * NodeData) :
  searchNode t k = NULL ->
  (In p (inorder (insertNode t k d)) <-> p = (k, d) \/ In p (inorder t)).
Proof.
  intros H. destruct (inorder_insertNode_fresh t k d H)
    as (l1 & l2 & -> & ->).
  rewrite !in_app_iff. simpl. intuition congruence.
Qed.

Lemma In_delete (t : TreeNode) (k : string) (p : string * NodeData) :
  BST t ->
  (In p (inorder (deleteNode t k)) <-> In p (inorder t) /\ fst p <> k).
Proof.
  intros B. rewrite inorder_deleteNode by exact B. rewrite List.filter_In.
  unfold has_key. rewrite negb_true_iff, String.eqb_neq. reflexivity.
Qed.

Lemma In_delete_all (ks : list string) (t : TreeNode)
  (p : string * NodeData) :
  BST t ->
  (In p (inorder (fold_left deleteNode ks t))
   <-> In p (inorder t) /\ ~ In (fst p) ks).
Proof.
  revert t. induction ks as [| k ks IH]; intros t B; simpl.
  - tauto.
  - rewrite IH by (apply BST_delete, B). rewrite In_delete by exact B.
    intuition congruence.
Qed.

Lemma tree_keys_In (t : TreeNode) (k : string) :
  In k (tree_keys t) <-> exists d, In (k, d) (inorder t).
Proof.
  unfold tree_keys. rewrite in_map_iff. split.
  - intros ([k' d] & E & H). simpl in E. subst. exists d. exact H.
  - intros (d & H). exists (k, d). split; [reflexivity | exact H].
Qed.

Lemma event_key_not_ticket_key (c c' : Z) (s : string) :
  event_key c <> ticket_key c' s.
Proof. unfold event_key, ticket_key. simpl. discriminate. Qed.

Lemma event_key_inj (c c' : Z) : event_key c = event_key c' -> c = c'.
Proof.
  unfold event_key. simpl. intros E. injection E as E. apply fmt_d_inj, E.
Qed.

Lemma transition_invariant (t t' : TreeNode) :
  transition t t' ->
  BST t /\ wellkeyed t /\ orphan_free t ->
  BST t' /\ wellkeyed t' /\ orphan_free t'.
Proof.
  intros T (B & W & O). destruct T as [| e He Hs | tk Hc He Hv Hs | c Hc He].
  - auto.
  - split; [apply BST_insert, B |]. split.
    + intros k d Hin. apply In_insert_fresh in Hin; [| exact Hs].
      destruct Hin as [E | Hin]; [| apply W, Hin].
      injection E as -> ->. simpl. auto.
    + intros k tk Hin. apply In_insert_fresh in Hin; [| exact Hs].
      destruct Hin as [E | Hin]; [discriminate E |].
      apply tree_keys_In. apply O, tree_keys_In in Hin.
      destruct Hin as (d & Hd). exists d.
      apply In_insert_fresh; [exact Hs | right; exact Hd].
  - split; [apply BST_insert, B |]. split.
    + intros k d Hin. apply In_insert_fresh in Hin; [| exact Hs].
      destruct Hin as [E | Hin]; [| apply W, Hin].
      injection E as -> ->. simpl. auto.
    + intros k tk' Hin. apply In_insert_fresh in Hin; [| exact Hs].
      apply tree_keys_In.
      assert (Hev : exists d, In (event_key (eventCode tk'), d) (inorder t)).
      { destruct Hin as [E | Hin].
        - injection E as _ ->. apply tree_keys_In, searchNode_In, He.
        - apply tree_keys_In, (O k), Hin. }
      destruct Hev as (d & Hd). exists d.
      apply In_insert_fresh; [exact Hs | right; exact Hd].
  - assert (Bk : BST (fold_left deleteNode (ticket_keys_of t c) t))
      by (apply BST_delete_all, B).
    split; [apply BST_delete, Bk |]. split.
    + intros k d Hin. apply In_delete in Hin; [| exact Bk].
      destruct Hin as [Hin _]. apply In_delete_all in Hin; [| exact B].
      apply W. tauto.
    + intros k tk Hin. apply In_delete in Hin; [| exact Bk].
      destruct Hin as [Hin Hk]. apply In_delete_all in Hin; [| exact B].
      destruct Hin as [Hin Hks]. simpl in Hk, Hks.
      assert (Hne : eventCode tk <> c).
      { intros E. apply Hks. apply ticket_keys_of_In.
        exists (ticketData tk). split; [exact Hin |].
        simpl. apply Z.eqb_eq, E. }
      pose proof (O k tk Hin) as Hev. apply tree_keys_In in Hev.
      destruct Hev as (d & Hd). apply tree_keys_In. exists d.
      apply In_delete; [exact Bk |]. split.
      * apply In_delete_all; [exact B |]. split; [exact Hd |].
        simpl. intros Hin'. apply ticket_keys_of_In in Hin'.
        destruct Hin' as (d' & Hd' & Ht).
        destruct d' as [e' | tk']; [discriminate Ht |].
        destruct (W _ _ Hd') as (_ & _ & E).
        exact (event_key_not_ticket_key _ _ _ E).
      * simpl. intros E. apply event_key_inj in E. contradiction.
Qed.

Lemma reachable_invariant (t : TreeNode) :
  reachable t -> BST t /\ wellkeyed t /\ orphan_free t.
Proof.
  induction 1 as [| t t' _ IH T].
  - split; [exact I |]. split; intros k d H; contradiction.
  - exact (transition_invariant t t' T IH).
Qed.

(** X26. However long the program has run and whatever was typed, the tree is a
    search tree in which every record lies under the key its payload gives
    (events under their code, tickets under event code and seat, the seat
    being one the validator accepts) and every ticket belongs to an event
    that is in the tree. *)
Theorem program_keeps_tickets_with_events (sscanf_d : string -> option Z)
  (e : Event) (nt : Ticket) (s : string) (fuel : nat) (w : World) :
  BST (snd (fst (main_loop sscanf_d e nt s fuel NULL w)))
  /\ wellkeyed (snd (fst (main_loop sscanf_d e nt s fuel NULL w)))
  /\ orphan_free (snd (fst (main_loop sscanf_d e nt s fuel NULL w))).
Proof.
  apply reachable_invariant.
  apply (main_loop_reachable sscanf_d e nt s fuel NULL reachable_empty w).
Qed.

(** * The menus *)

Section Menus.

Variable sscanf_d : string -> option Z.
Variable local_event : Event.
Variable local_ticket : Ticket.
Variable local_seat : string.

(** Steps through the prompts of a menu whose input is at its end. *)
Ltac menu_at_eof IH :=
  unfold bind, printf, ret; cbn [stdin stdout searched];
  rewrite getIntegerInput_eof by assumption;
  cbn [Z.eqb stdin stdout searched];
  apply IH; assumption.

(** X27. Once the input is used up no menu is ever left: each turn reads -1,
    reports an invalid choice and starts over, with the tree untouched.
    Whatever bound is put on the number of turns, the loop is still
    running when it is reached. *)
Theorem menus_never_end_at_eof (fuel : nat) (t : TreeNode) (w : World) :
  stdin w = EmptyString ->
  fst (eventMenu sscanf_d local_event fuel t w) = (false, t)
  /\ fst (ticketMenu sscanf_d local_ticket local_seat fuel t w) = (false, t)
  /\ fst (main_loop sscanf_d local_event local_ticket local_seat fuel t w)
     = (false, t).
Proof.
  intros E. split; [| split]; revert w E;
    induction fuel as [| fuel IH]; intros w E; try reflexivity.
  - cbn [eventMenu]. menu_at_eof IH.
  - cbn [ticketMenu]. menu_at_eof IH.
  - cbn [main_loop]. menu_at_eof IH.
Qed.

(** X28. The main loop ends only through the exit entry, and then with the
    empty tree: all data has been deleted. *)
Theorem main_loop_ends_empty (fuel : nat) (t : TreeNode) (w : World) :
  fst (fst (main_loop sscanf_d local_event local_ticket local_seat fuel t w))
  = true ->
  snd (fst (main_loop sscanf_d local_event local_ticket local_seat fuel t w))
  = NULL.
Proof.
  revert t w.
  assert (H : forall t,
             post (main_loop sscanf_d local_event local_ticket local_seat
                     fuel t)
               (fun r => fst r = true -> snd r = NULL)).
  { induction fuel as [| fuel IH]; intros t; cbn [main_loop].
    - apply post_ret. discriminate.
    - do 6 (eapply post_bind; [apply post_any | intros ? _]).
      repeat match goal with
             | |- post (if ?b then _ else _) _ => destruct b
             end.
      + eapply post_bind; [apply post_any | intros [fin t'] _].
        simpl. destruct fin; [apply IH | apply post_ret; discriminate].
      + eapply post_bind; [apply post_any | intros [fin t'] _].
        simpl. destruct fin; [apply IH | apply post_ret; discriminate].
      + eapply post_bind; [apply post_any | intros ? _].
        apply post_ret. reflexivity.
      + eapply post_bind; [apply post_any | intros ? _]. apply IH. }
  intros t w. apply H.
Qed.

End Menus.

(** * Refusals *)

Lemma getStringInput_frame (buffer : string) (size : Z) (w : World)
  (o q : list string) :
  getStringInput buffer size {| stdin := stdin w; stdout := o; searched := q |}
  = (fst (getStringInput buffer size w),
     {| stdin := stdin (snd (getStringInput buffer size w));
        stdout := o; searched := q |}).
Proof.
  destruct w as [i o0 q0]. unfold getStringInput, bind, fgets, ret.
  cbn [stdin stdout searched].
  destruct i as [| c r]; [reflexivity |].
  destruct (read_line (Z.to_nat (size - 1)) (String c r)) as [line rest].
  reflexivity.
Qed.

Section Refusals.

Variable sscanf_d : string -> option Z.

(** X16. An event code that is already in the tree is refused: the tree stays
    as it is, after one search and before anything else is read. *)
Theorem addEvent_duplicate (e : Event) (t : TreeNode) (w : World) :
  0 <= fst (getIntegerInput sscanf_d w) ->
  searchNode t (event_key (fst (getIntegerInput sscanf_d w))) <> NULL ->
  addEvent sscanf_d e t w
  = (t, {| stdin := stdin (snd (getIntegerInput sscanf_d w));
           stdout := stdout w
                     ++ [ nl +:+ "--- Add New Event ---" +:+ nl;
                          "Enter event code (integer): ";
                          "(!) Error: An event with this code already exists."
                          +:+ nl ];
           searched := searched w
                       ++ [event_key (fst (getIntegerInput sscanf_d w))] |}).
Proof.
  intros H Hs. unfold addEvent. read_code.
  apply Z.ltb_ge in H. rewrite H. unfold search.
  cbn [stdin stdout searched]. apply is_null_false in Hs. rewrite Hs.
  cbn [negb stdin stdout searched]. rewrite <- !app_assoc. reflexivity.
Qed.

(** X21. Removing an event whose code is not in the tree changes nothing. *)
Theorem removeEvent_unknown (t : TreeNode) (w : World) :
  0 <= fst (getIntegerInput sscanf_d w) ->
  searchNode t (event_key (fst (getIntegerInput sscanf_d w))) = NULL ->
  removeEvent sscanf_d t w
  = (t, {| stdin := stdin (snd (getIntegerInput sscanf_d w));
           stdout := stdout w
                     ++ [ nl +:+ "--- Delete Event ---" +:+ nl;
                          "Enter event code to delete: ";
                          "(!) No event found with code "
                          +:+ fmt_d (fst (getIntegerInput sscanf_d w))
                          +:+ "." +:+ nl ];
           searched := searched w
                       ++ [event_key (fst (getIntegerInput sscanf_d w))] |}).
Proof.
  intros H Hs. unfold removeEvent. read_code.
  apply Z.ltb_ge in H. rewrite H. unfold search.
  cbn [stdin stdout searched]. rewrite Hs.
  cbn [is_null stdin stdout searched]. rewrite <- !app_assoc. reflexivity.
Qed.

(** X18. A seat the validator turns down ends the booking: the tree stays as it
    is and no ticket key is searched for. *)
Theorem addTicket_invalid_seat (nt : Ticket) (t : TreeNode) (w : World) :
  0 <= fst (getIntegerInput sscanf_d w) ->
  searchNode t (event_key (fst (getIntegerInput sscanf_d w))) <> NULL ->
  validateSeat
    (fst (getStringInput (seat nt) 5 (snd (getIntegerInput sscanf_d w)))) = 0 ->
  addTicket sscanf_d nt t w
  = (t, {| stdin := stdin (snd (getStringInput (seat nt) 5
                                  (snd (getIntegerInput sscanf_d w))));
           stdout := stdout w
                     ++ [ nl +:+ "--- Issue Ticket ---" +:+ nl;
                          "Enter event code: ";
                          "Enter seat (e.g., c149): ";
                          "(!) Error: Invalid seat. Section 'a'-'h' and number 1-500."
                          +:+ nl ];
           searched := searched w
                       ++ [event_key (fst (getIntegerInput sscanf_d w))] |}).
Proof.
  intros H Hs Hv. unfold addTicket. read_code.
  apply Z.ltb_ge in H. rewrite H. unfold search.
  cbn [stdin stdout searched]. apply is_null_false in Hs. rewrite Hs.
  unfold bind, printf. cbn [stdin stdout searched].
  rewrite getStringInput_frame. cbn [fst snd stdin stdout searched].
  rewrite Hv. cbn [Z.eqb stdin stdout searched].
  rewrite <- !app_assoc. reflexivity.
Qed.

(** X19. A seat that is already booked for the event is refused: the tree stays
    as it is, and the name of the spectator is not asked for. *)
Theorem addTicket_seat_taken (nt : Ticket) (t : TreeNode) (w : World) :
  0 <= fst (getIntegerInput sscanf_d w) ->
  searchNode t (event_key (fst (getIntegerInput sscanf_d w))) <> NULL ->
  validateSeat
    (fst (getStringInput (seat nt) 5 (snd (getIntegerInput sscanf_d w)))) = 1 ->
  searchNode t
    (ticket_key (fst (getIntegerInput sscanf_d w))
       (fst (getStringInput (seat nt) 5 (snd (getIntegerInput sscanf_d w)))))
  <> NULL ->
  let c := fst (getIntegerInput sscanf_d w) in
  let s := fst (getStringInput (seat nt) 5 (snd (getIntegerInput sscanf_d w))) in
  addTicket sscanf_d nt t w
  = (t, {| stdin := stdin (snd (getStringInput (seat nt) 5
                                  (snd (getIntegerInput sscanf_d w))));
           stdout := stdout w
                     ++ [ nl +:+ "--- Issue Ticket ---" +:+ nl;
                          "Enter event code: ";
                          "Enter seat (e.g., c149): ";
                          "(!) Error: Seat " +:+ s
                          +:+ " is already booked for this event." +:+ nl ];
           searched := searched w ++ [event_key c; ticket_key c s] |}).
Proof.
  intros H Hs Hv Hk c s. unfold addTicket. read_code. fold c.
  apply Z.ltb_ge in H. fold c in H. rewrite H. unfold search.
  cbn [stdin stdout searched]. apply is_null_false in Hs. fold c in Hs.
  rewrite Hs.
  unfold bind, printf. cbn [stdin stdout searched].
  rewrite getStringInput_frame. cbn [fst snd stdin stdout searched]. fold s.
  fold s in Hv. rewrite Hv. cbn [Z.eqb stdin stdout searched].
  apply is_null_false in Hk. fold c s in Hk. rewrite Hk.
  cbn [negb stdin stdout searched].
  rewrite <- !app_assoc. reflexivity.
Qed.

(** X22. A search for an event prints the node found and with it every event
    stored in the subtree below that node, in ascending order of keys. *)
Theorem findEvent_prints_subtree (t : TreeNode) (w : World) :
  0 <= fst (getIntegerInput sscanf_d w) ->
  searchNode t (event_key (fst (getIntegerInput sscanf_d w))) <> NULL ->
  stdout (snd (findEvent sscanf_d t w))
  = stdout w
    ++ [ nl +:+ "--- Search for Event ---" +:+ nl;
         "Enter event code to search for: ";
         "-> Event found:" +:+ nl ]
    ++ flat_map print_record
         (List.filter (listed EVENT_NODE (-1))
            (inorder (searchNode t
                        (event_key (fst (getIntegerInput sscanf_d w)))))).
Proof.
  intros H Hs. unfold findEvent. read_code.
  apply Z.ltb_ge in H. rewrite H. unfold search.
  cbn [stdin stdout searched]. apply is_null_false in Hs. rewrite Hs.
  unfold printfs. cbn [negb snd stdin stdout searched].
  destruct (print_enumerates
              (searchNode t (event_key (fst (getIntegerInput sscanf_d w))))
              EVENT_NODE (-1)) as [-> _].
  rewrite <- !app_assoc. reflexivity.
Qed.

End Refusals.

(** * Buffers *)

(** X25. The array of collected keys never overflows: started with room for at
    least one key, it holds as many keys as it counts, one per ticket of the
    event, and the count never exceeds the capacity. *)
Theorem collect_stays_in_bounds (t : TreeNode) (c : Z) (b : KeyBuffer) :
  0 < capacity b ->
  count b = Z.of_nat (length (keys b)) ->
  count b <= capacity b ->
  let b' := collectTicketKeysForEvent t c b in
  keys b' = keys b ++ ticket_keys_of t c
  /\ count b' = Z.of_nat (length (keys b'))
  /\ count b' <= capacity b'
  /\ capacity b <= capacity b'.
Proof.
  intros Hc Hn Hle b'. subst b'.
  destruct (collect_keys t c b) as [K C].
  destruct (collect_capacity t c b Hc Hle) as [_ Hle'].
  split; [exact K |]. split; [rewrite K, C, length_app; lia |].
  split; [exact Hle' |].
  clear K C Hle' Hn Hle. revert b Hc.
  induction t as [| k d l IHl r IHr]; intros b Hc; simpl; [lia |].
  assert (H1 : capacity b <= capacity (collectTicketKeysForEvent l c b))
    by (apply IHl, Hc).
  destruct (ticket_of_event c d).
  - etransitivity; [exact H1 |]. etransitivity; [| apply IHr].
    + unfold push_key. simpl.
      destruct (capacity (collectTicketKeysForEvent l c b)
                <=? count (collectTicketKeysForEvent l c b)); lia.
    + unfold push_key. simpl.
      destruct (capacity (collectTicketKeysForEvent l c b)
                <=? count (collectTicketKeysForEvent l c b)); lia.
  - etransitivity; [exact H1 |]. apply IHr. lia.
Qed.

Lemma length_string_of_uint (d : Decimal.uint) :
  String.length (NilEmpty.string_of_uint d) = Decimal.nb_digits d.
Proof. induction d; simpl; auto. Qed.

Lemma of_uint_acc_lower (d : Decimal.uint) (acc : positive) :
  (Npos acc * 10 ^ N.of_nat (Decimal.nb_digits d)
   <= Npos (Pos.of_uint_acc d acc))%N.
Proof.
  revert acc. induction d as [| d IH | d IH | d IH | d IH | d IH | d IH
                              | d IH | d IH | d IH | d IH]; intros acc;
    cbn [Pos.of_uint_acc Decimal.nb_digits];
    [ simpl; lia | .. ];
    (etransitivity; [| apply IH]);
    rewrite Nat2N.inj_succ, N.pow_succ_r' ; nia.
Qed.

Lemma to_uint_digits (p : positive) :
  (10 ^ N.of_nat (pred (Decimal.nb_digits (Pos.to_uint p))) <= Npos p)%N.
Proof.
  pose proof (DecimalPos.Unsigned.of_to p) as E.
  pose proof (DecimalPos.Unsigned.to_of (Pos.to_uint p)) as U.
  rewrite E in U. simpl in U.
  pose proof (DecimalPos.Unsigned.to_uint_nonzero p) as NZ.
  assert (Hh : Decimal.nzhead (Pos.to_uint p) = Pos.to_uint p).
  { unfold Decimal.unorm in U.
    destruct (Decimal.nzhead (Pos.to_uint p)) eqn:Eh;
      try (symmetry; exact U).
    contradiction. }
  destruct (Pos.to_uint p) as [| d | d | d | d | d | d | d | d | d | d] eqn:Ed;
    cbn [Pos.of_uint Decimal.nb_digits pred] in *;
    try (injection E as E; rewrite <- E;
         etransitivity; [| apply of_uint_acc_lower]; lia).
  - simpl. lia.
  - exfalso. simpl in Hh.
    pose proof (DecimalFacts.nb_digits_nzhead d) as L.
    rewrite Hh in L. simpl in L. lia.
Qed.

Lemma length_fmt_d (c : Z) :
  0 <= c <= 2147483647 -> (String.length (fmt_d c) <= 10)%nat.
Proof.
  intros H. unfold fmt_d. destruct c as [| p | p]; [simpl; lia | | lia].
  unfold Z.to_int, NilZero.string_of_int, NilZero.string_of_uint.
  pose proof (to_uint_digits p) as L.
  assert (Hn : String.length (NilEmpty.string_of_uint (Pos.to_uint p))
               = Decimal.nb_digits (Pos.to_uint p))
    by apply length_string_of_uint.
  destruct (Pos.to_uint p) eqn:Ed; [simpl; lia | ..];
    rewrite Hn;
    destruct (le_lt_dec (Decimal.nb_digits (Pos.to_uint p)) 10) as [Hle | Hgt];
    rewrite Ed in *; try exact Hle; exfalso;
    assert (P : (10 ^ 10 <= 10 ^ N.of_nat (pred (Decimal.nb_digits
                   (Pos.to_uint p))))%N)
      by (apply N.pow_le_mono_r; rewrite ?Ed; lia);
    rewrite Ed in P; lia.
Qed.

(** X10. The keys fit the twenty bytes reserved for them, terminator included:
    an event key built from a code that is not negative has at most twelve
    characters, and a ticket key built from such a code and a seat of at
    most four characters has at most seventeen. *)
Theorem keys_fit_buffer (c : Z) (s : string) :
  0 <= c <= 2147483647 ->
  strlen s <= 4 ->
  strlen (event_key c) <= 12 /\ strlen (ticket_key c s) <= 17.
Proof.
  intros Hc Hs. pose proof (length_fmt_d c Hc) as L.
  unfold strlen, event_key, ticket_key in *.
  rewrite !length_append. simpl. rewrite ?length_append. simpl. lia.
Qed.

(** * Freeing the tree *)

Lemma freeTree_run (h : Heap.heap) (root : Heap.ptr) (t : TreeNode)
  (cells : gset Heap.loc) :
  Heap.owns h root t cells ->
  forall (h0 : Heap.heap) (fuel : nat),
    (forall q, q ∈ cells -> h0 !! q = h !! q) ->
    (height t < fuel)%nat ->
    exists h',
      Heap.freeTree fuel root h0 = Some (tt, h')
      /\ forall q, h' !! q = if decide (q ∈ cells) then None else h0 !! q.
Proof.
  induction 1 as [| p c l r cl cr Hp Hl IHl Hr IHr Hpl Hpr Hd];
    intros h0 fuel Hag Hf; (destruct fuel as [| fuel]; [lia |]);
    simpl in Hf; cbn [Heap.freeTree].
  - exists h0. split; [reflexivity |]. intros q.
    destruct (decide (q ∈ (∅ : gset Heap.loc))) as [Hq | _];
      [set_unfold; tauto | reflexivity].
  - assert (Hp0 : h0 !! p = Some c) by (rewrite Hag; [exact Hp | set_unfold; tauto]).
    destruct (IHl h0 fuel) as (h1 & R1 & L1);
      [intros q Hq; apply Hag; set_unfold; tauto | lia |].
    assert (Hp1 : h1 !! p = Some c).
    { rewrite L1. destruct (decide (p ∈ cl)); [contradiction | exact Hp0]. }
    destruct (IHr h1 fuel) as (h2 & R2 & L2).
    { intros q Hq. rewrite L1.
      destruct (decide (q ∈ cl)) as [Hq' | _];
        [exfalso; exact (Hd q Hq' Hq) |]. apply Hag. set_unfold; tauto. }
    { lia. }
    assert (Hp2 : h2 !! p = Some c).
    { rewrite L2. destruct (decide (p ∈ cr)); [contradiction | exact Hp1]. }
    exists (delete p h2). split.
    + unfold Heap.bind, Heap.load. rewrite Hp0, R1, Hp1, R2.
      unfold Heap.free. rewrite Hp2. reflexivity.
    + intros q. unfold Heap.heap in *.
      destruct (decide (q = p)) as [-> | Hne].
      * rewrite lookup_delete_eq.
        destruct (decide (p ∈ {[p]} ∪ cl ∪ cr)); [reflexivity | set_unfold; tauto].
      * rewrite lookup_delete_ne by congruence. rewrite L2, L1.
        destruct (decide (q ∈ cr)), (decide (q ∈ cl)),
                 (decide (q ∈ {[p]} ∪ cl ∪ cr));
          try reflexivity; set_unfold; tauto.
Qed.

(** X29. [freeTree] frees each node of the tree once and touches no other node:
    it runs to its end, the addresses of the tree are no longer allocated,
    and every other address holds what it held. *)
Theorem freeTree_frees_the_tree (h : Heap.heap) (root : Heap.ptr)
  (t : TreeNode) (cells : gset Heap.loc) :
  Heap.owns h root t cells ->
  exists h',
    Heap.freeTree (S (height t)) root h = Some (tt, h')
    /\ (forall q, q ∈ cells -> h' !! q = None)
    /\ (forall q, q ∉ cells -> h' !! q = h !! q).
Proof.
  intros O.
  destruct (freeTree_run h root t cells O h (S (height t)))
    as (h' & R & L); [reflexivity | lia |].
  exists h'. split; [exact R |]. split; intros q Hq; rewrite L;
    destruct (decide (q ∈ cells)); try reflexivity; contradiction.
Qed.

(** * Seats *)

(** X11. Every seat of the documented form is accepted: a letter from a to h in
    either case followed by one to three digits that make a number from 1
    to 500. *)
Theorem seat_format_accepted (s : string) :
  seat_format_spec s = true -> validateSeat s = 1.
Proof. exact (validateSeat_accepts_format s). Qed.

(** X12. The validator does not tell the case of the section letter, the ticket
    key does: a seat and the same seat with its letter in the other case
    are accepted alike and are booked under two different keys. *)
Theorem seat_case_variants (c c' : ascii) (r : string) (code : Z) :
  tolower (uchar c) = tolower (uchar c') ->
  c <> c' ->
  validateSeat (String c r) = validateSeat (String c' r)
  /\ ticket_key code (String c r) <> ticket_key code (String c' r).
Proof.
  intros Hl Hne. split.
  - unfold validateSeat, strlen. simpl String.length. rewrite Hl. reflexivity.
  - unfold ticket_key. intros E. simpl in E. injection E as E.
    change ("_" +:+ String c r) with (String "_" (String c r)) in E.
    change ("_" +:+ String c' r) with (String "_" (String c' r)) in E.
    destruct (split_at_underscore _ _ _ _ (no_underscore_fmt_d code)
                (no_underscore_fmt_d code) E) as [_ Es].
    injection Es as Es. contradiction.
Qed.

(** * More on insertion and listing *)

(** X3. An insert leaves the result of every search for another key as it
    was, in any tree. *)
Theorem insertNode_keeps_other_keys (t : TreeNode) (k k' : string)
  (d : NodeData) :
  k <> k' ->
  found (searchNode (insertNode t k d) k') = found (searchNode t k').
Proof. exact (searchNode_insert_other t k k' d). Qed.

Lemma listed_tickets (c : Z) (p : string * NodeData) :
  c <> -1 -> listed TICKET_NODE c p = ticket_of_event c (snd p).
Proof.
  intros H. unfold listed, ticket_of_event. destruct (snd p); [reflexivity |].
  apply Z.eqb_neq in H. rewrite H. reflexivity.
Qed.

Lemma filter_ext_all {A : Type} (f g : A -> bool) (l : list A) :
  (forall x, f x = g x) -> List.filter f l = List.filter g l.
Proof.
  intros H. induction l as [| a l IH]; simpl; [reflexivity |].
  rewrite H, IH. reflexivity.
Qed.

Section Listings.

Variable sscanf_d : string -> option Z.

(** X24. The list of events shows every event of the tree, and the list of
    tickets of an event that is in the tree shows the tickets of that event
    and no other, each once and in ascending order of keys. *)
Theorem listings_show_the_tree (t : TreeNode) (w : World) :
  stdout (snd (printEvents t w))
  = stdout w
    ++ [nl +:+ "--- LIST OF ALL EVENTS ---" +:+ nl]
    ++ flat_map print_record
         (List.filter (listed EVENT_NODE (-1)) (inorder t))
    ++ ["--- END OF LIST ---" +:+ nl]
  /\ (0 <= fst (getIntegerInput sscanf_d w) ->
      searchNode t (event_key (fst (getIntegerInput sscanf_d w))) <> NULL ->
      stdout (snd (printTicketsForEvent sscanf_d t w))
      = stdout w
        ++ [ nl +:+ "--- Print Tickets for an Event ---" +:+ nl;
             "Enter event code: ";
             nl +:+ "--- LIST OF TICKETS FOR EVENT "
             +:+ fmt_d (fst (getIntegerInput sscanf_d w)) +:+ " ---" +:+ nl ]
        ++ flat_map print_record
             (List.filter
                (fun p => ticket_of_event (fst (getIntegerInput sscanf_d w))
                            (snd p))
                (inorder t))
        ++ ["--- END OF LIST ---" +:+ nl]).
Proof.
  split.
  - unfold printEvents, bind, printf, printfs, ret.
    cbn [snd stdin stdout searched].
    destruct (print_enumerates t EVENT_NODE (-1)) as [-> _].
    rewrite <- !app_assoc. reflexivity.
  - intros H Hs. unfold printTicketsForEvent. read_code.
    pose proof H as H'. apply Z.ltb_ge in H'. rewrite H'. unfold search.
    cbn [stdin stdout searched]. apply is_null_false in Hs. rewrite Hs.
    unfold printfs. cbn [snd stdin stdout searched].
    destruct (print_enumerates t TICKET_NODE
                (fst (getIntegerInput sscanf_d w))) as [-> _].
    assert (Hne : fst (getIntegerInput sscanf_d w) <> -1) by lia.
    rewrite (filter_ext_all _ _ _
               (fun p => listed_tickets (fst (getIntegerInput sscanf_d w))
                           p Hne)).
    rewrite <- !app_assoc. reflexivity.
Qed.

End Listings.

Section TicketSearch.

Variable sscanf_d : string -> option Z.


End TicketSearch.

(** * The further properties at sample inputs *)

Lemma owns_sample :
  Heap.owns sample_heap (Some 1%positive) sample_heap_tree sample_cells.
Proof.
  unfold sample_cells, sample_heap_tree.
  apply (Heap.owns_node sample_heap 1%positive
           (Heap.mkCell "E_101" (eventData yoga) None (Some 2%positive))
           NULL (Node "T_101_c149" (ticketData seat_c149) NULL NULL)
           ∅ ({[ 2%positive ]} ∪ ∅ ∪ ∅)).
  - reflexivity.
  - constructor.
  - apply (Heap.owns_node sample_heap 2%positive
             (Heap.mkCell "T_101_c149" (ticketData seat_c149) None None)
             NULL NULL ∅ ∅).
    + reflexivity.
    + constructor.
    + constructor.
    + set_unfold; tauto.
    + set_unfold; tauto.
    + set_unfold; tauto.
  - set_unfold; tauto.
  - set_unfold. intros [[E | []] | []]. discriminate E.
  - set_unfold; tauto.
Qed.


Lemma insertNode_adds_one_record_witness :
  searchNode sample_tree "E_103" = NULL
  /\ exists l1 l2,
       inorder sample_tree = l1 ++ l2
       /\ inorder (insertNode sample_tree "E_103" (eventData yoga))
          = l1 ++ ("E_103", eventData yoga) :: l2.
Proof.
  split; [reflexivity |].
  apply (insertNode_adds_one_record sample_tree "E_103" (eventData yoga)).
  reflexivity.
Defined.

Lemma deleteNode_undoes_insertNode_witness :
  searchNode sample_tree "E_103" = NULL
  /\ deleteNode (insertNode sample_tree "E_103" (eventData yoga)) "E_103"
     = sample_tree.
Proof.
  split; [reflexivity |].
  apply (deleteNode_undoes_insertNode sample_tree "E_103" (eventData yoga)).
  reflexivity.
Defined.

Lemma deleteNode_order_irrelevant_witness :
  BST sample_tree
  /\ inorder (deleteNode (deleteNode sample_tree "E_101") "T_101_c149")
     = inorder (deleteNode (deleteNode sample_tree "T_101_c149") "E_101").
Proof.
  split; [exact BST_sample_tree |].
  apply (deleteNode_order_irrelevant sample_tree "E_101" "T_101_c149"
           BST_sample_tree).
Defined.

Lemma BST_small_tree : BST small_tree.
Proof. vm_compute. repeat split. Qed.

Lemma findMin_least_witness :
  BST small_tree
  /\ findMin small_tree = Node "E_101" (eventData yoga) NULL NULL
  /\ forall k', In k' (tree_keys small_tree) ->
                k' = "E_101" \/ key_lt "E_101" k'.
Proof.
  split; [exact BST_small_tree |]. split; [reflexivity |].
  destruct (findMin_least small_tree "E_101" (eventData yoga) NULL NULL
              BST_small_tree eq_refl) as (_ & _ & H).
  exact H.
Defined.

Lemma node_count_insert_delete_witness :
  BST sample_tree
  /\ length (inorder (insertNode sample_tree "E_103" (eventData yoga))) = 6%nat
  /\ length (inorder (deleteNode sample_tree "E_102")) = 4%nat.
Proof.
  split; [exact BST_sample_tree |].
  destruct (node_count_insert_delete sample_tree "E_103" (eventData yoga))
    as [Hi _].
  destruct (node_count_insert_delete sample_tree "E_102" (eventData yoga))
    as [_ Hd].
  specialize (Hd BST_sample_tree).
  split; [rewrite Hi; reflexivity |].
  change (5%nat = S (length (inorder (deleteNode sample_tree "E_102")))) in Hd.
  apply Nat.succ_inj. symmetry. exact Hd.
Defined.

Lemma inorderTraversalPrint_enumerates_witness :
  BST sample_tree
  /\ inorderTraversalPrint sample_tree TICKET_NODE 101
     = print_ticket seat_a7 ++ print_ticket seat_c149
  /\ StronglySorted key_lt
       (map fst (List.filter (listed TICKET_NODE 101) (inorder sample_tree))).
Proof.
  split; [exact BST_sample_tree |].
  destruct (inorderTraversalPrint_enumerates sample_tree TICKET_NODE 101)
    as [He Hs].
  split; [rewrite He; reflexivity | exact (Hs BST_sample_tree)].
Defined.

Lemma keys_distinguish_witness :
  ticket_key 101 "a7" = "T_101_a7"
  /\ (ticket_key 101 "a7" = ticket_key 101 "a7" ->
      101 = 101 /\ "a7" = "a7")
  /\ event_key 101 <> ticket_key 101 "a7".
Proof.
  split; [reflexivity |].
  destruct (keys_distinguish 101 101 "a7" "a7") as (_ & H2 & H3).
  split; [exact H2 | exact H3].
Defined.



Lemma menus_never_end_at_eof_witness :
  stdin (console "") = ""
  /\ fst (main_loop scan_decimal yoga seat_a7 "" 25 sample_tree (console ""))
     = (false, sample_tree).
Proof.
  split; [reflexivity |].
  destruct (menus_never_end_at_eof scan_decimal yoga seat_a7 "" 25
              sample_tree (console "") eq_refl) as (_ & _ & H).
  exact H.
Defined.

Lemma main_loop_ends_empty_witness :
  fst (fst (main_loop scan_decimal yoga seat_a7 "" 1 sample_tree
              (console (lines ["3"])))) = true
  /\ snd (fst (main_loop scan_decimal yoga seat_a7 "" 1 sample_tree
                 (console (lines ["3"])))) = NULL.
Proof.
  split; [reflexivity |].
  apply (main_loop_ends_empty scan_decimal yoga seat_a7 "" 1 sample_tree
           (console (lines ["3"]))).
  reflexivity.
Defined.

Lemma addEvent_duplicate_witness :
  0 <= fst (getIntegerInput scan_decimal (console (lines ["101"])))
  /\ fst (addEvent scan_decimal pilates sample_tree (console (lines ["101"])))
     = sample_tree.
Proof.
  assert (H0 : 0 <= fst (getIntegerInput scan_decimal (console (lines ["101"]))))
    by (vm_compute; discriminate).
  split; [exact H0 |].
  rewrite (addEvent_duplicate scan_decimal pilates sample_tree
             (console (lines ["101"])) H0);
    [reflexivity | vm_compute; discriminate].
Defined.

Lemma removeEvent_unknown_witness :
  0 <= fst (getIntegerInput scan_decimal (console (lines ["7"])))
  /\ fst (removeEvent scan_decimal sample_tree (console (lines ["7"])))
     = sample_tree.
Proof.
  assert (H0 : 0 <= fst (getIntegerInput scan_decimal (console (lines ["7"]))))
    by (vm_compute; discriminate).
  split; [exact H0 |].
  rewrite (removeEvent_unknown scan_decimal sample_tree
             (console (lines ["7"])) H0);
    reflexivity.
Defined.

Lemma addTicket_invalid_seat_witness :
  validateSeat "z9" = 0
  /\ fst (addTicket scan_decimal seat_b2 sample_tree
            (console (lines ["101"; "z9"])))
     = sample_tree.
Proof.
  split; [reflexivity |].
  rewrite (addTicket_invalid_seat scan_decimal seat_b2 sample_tree
             (console (lines ["101"; "z9"])));
    [reflexivity | vm_compute; discriminate | vm_compute; discriminate
    | reflexivity].
Defined.

Lemma addTicket_seat_taken_witness :
  searchNode sample_tree (ticket_key 101 "a7") <> NULL
  /\ fst (addTicket scan_decimal seat_b2 sample_tree
            (console (lines ["101"; "a7"])))
     = sample_tree.
Proof.
  split; [vm_compute; discriminate |].
  rewrite (addTicket_seat_taken scan_decimal seat_b2 sample_tree
             (console (lines ["101"; "a7"])));
    [reflexivity | vm_compute; discriminate | vm_compute; discriminate
    | reflexivity | vm_compute; discriminate].
Defined.

Lemma findEvent_prints_subtree_witness :
  stdout (snd (findEvent scan_decimal sample_tree (console (lines ["101"]))))
  = [ nl +:+ "--- Search for Event ---" +:+ nl;
      "Enter event code to search for: ";
      "-> Event found:" +:+ nl ]
    ++ print_event yoga ++ print_event pilates.
Proof.
  rewrite (findEvent_prints_subtree scan_decimal sample_tree
             (console (lines ["101"])));
    [reflexivity | vm_compute; discriminate | vm_compute; discriminate].
Defined.

Lemma collect_stays_in_bounds_witness :
  0 < capacity empty_buffer
  /\ keys (collectTicketKeysForEvent sample_tree 101 empty_buffer)
     = ["T_101_a7"; "T_101_c149"]
  /\ count (collectTicketKeysForEvent sample_tree 101 empty_buffer) = 2
  /\ count (collectTicketKeysForEvent sample_tree 101 empty_buffer)
     <= capacity (collectTicketKeysForEvent sample_tree 101 empty_buffer).
Proof.
  assert (H0 : 0 < capacity empty_buffer) by reflexivity.
  split; [exact H0 |].
  destruct (collect_stays_in_bounds sample_tree 101 empty_buffer H0 eq_refl)
    as (K & C & L & _); [vm_compute; discriminate |].
  split; [rewrite K; reflexivity |].
  split; [rewrite C, K; reflexivity | exact L].
Defined.

Lemma keys_fit_buffer_witness :
  0 <= 2147483647 <= 2147483647
  /\ strlen (event_key 2147483647) <= 12
  /\ strlen (ticket_key 2147483647 "c149") <= 17.
Proof.
  assert (H : 0 <= 2147483647 <= 2147483647) by lia.
  split; [exact H |].
  apply (keys_fit_buffer 2147483647 "c149" H). vm_compute. discriminate.
Defined.

Lemma freeTree_frees_the_tree_witness :
  Heap.owns sample_heap (Some 1%positive) sample_heap_tree sample_cells
  /\ exists h',
       Heap.freeTree 3 (Some 1%positive) sample_heap = Some (tt, h')
       /\ (forall q, q ∈ sample_cells -> h' !! q = None)
       /\ (forall q, q ∉ sample_cells -> h' !! q = sample_heap !! q).
Proof.
  split; [exact owns_sample |].
  apply (freeTree_frees_the_tree sample_heap (Some 1%positive)
           sample_heap_tree sample_cells owns_sample).
Defined.

Lemma seat_format_accepted_witness :
  seat_format_spec "c149" = true /\ validateSeat "c149" = 1.
Proof.
  split; [reflexivity |].
  apply (seat_format_accepted "c149"). reflexivity.
Defined.

Lemma seat_case_variants_witness :
  validateSeat "A7" = validateSeat "a7"
  /\ ticket_key 101 "A7" <> ticket_key 101 "a7".
Proof.
  apply (seat_case_variants "A"%char "a"%char "7" 101);
    [reflexivity | discriminate].
Defined.

Lemma insertNode_keeps_other_keys_witness :
  "E_103" <> "E_101"
  /\ found (searchNode (insertNode sample_tree "E_103" (eventData pilates))
              "E_101")
     = found (searchNode sample_tree "E_101").
Proof.
  assert (H : "E_103" <> "E_101") by discriminate.
  split; [exact H |].
  apply (insertNode_keeps_other_keys sample_tree "E_103" "E_101"
           (eventData pilates) H).
Defined.

Lemma listings_show_the_tree_witness :
  stdout (snd (printTicketsForEvent scan_decimal sample_tree
                 (console (lines ["101"]))))
  = [ nl +:+ "--- Print Tickets for an Event ---" +:+ nl;
      "Enter event code: ";
      nl +:+ "--- LIST OF TICKETS FOR EVENT 101 ---" +:+ nl ]
    ++ print_ticket seat_a7 ++ print_ticket seat_c149
    ++ ["--- END OF LIST ---" +:+ nl].
Proof.
  destruct (listings_show_the_tree scan_decimal sample_tree
              (console (lines ["101"]))) as [_ H].
  rewrite H; [reflexivity | vm_compute; discriminate | vm_compute; discriminate].
Defined.

